(** * pdfmapper: coordinate transforms, field registry, drag interaction and
      overlay generation

    A shallow embedding of the geometry / interaction / generation core of the
    PDF mapper:

    - [src/lib/coordinates.ts]      -> [Module Coordinates]
    - [src/lib/utils.ts] ([clamp])  -> [Module Utils]
    - [src/store/template.ts]       -> [Module TemplateStore]
    - [components/FieldRectangle]   -> [Module FieldRectangle]
    - [components/FieldOverlay]     -> [Module FieldOverlay]
    - [components/FieldSidebar]     -> [Module FieldSidebar]
    - [components/GenerationModal]  -> [Module GenerationModal]

    Numbers.  A JavaScript [number] is modelled by an exact rational ([Q]):
    every arithmetic expression of the source is kept as it is written, and
    evaluated without rounding.  [NaN], the infinities, overflow, underflow
    and rounding of IEEE doubles are outside the model; a division is only
    looked at for a non-zero divisor.  Two rationals are compared with [==]
    ([Qeq]); a value that the code copies is equal with [=]. *)

From Stdlib Require Import QArith Qminmax Qabs Qround Lqa Lia ZArith.
From Stdlib Require Import Ascii String DecimalString.
From stdpp Require Import base option list gmap strings sorting.

Local Open Scope Q_scope.

(* ===================================================================== *)
(** ** Types ([src/types/index.ts])                                       *)
(* ===================================================================== *)

Module Types.

(** [FieldRect]: position and size as fractions of the page. *)
Record FieldRect := mkFieldRect {
  rect_x : Q;
  rect_y : Q;
  rect_w : Q;
  rect_h : Q
}.

(** The anonymous [{x, y, w, h}] object type used for rectangles in pixels. *)
Record PixelRect := mkPixelRect {
  px_x : Q;
  px_y : Q;
  px_w : Q;
  px_h : Q
}.

(** [PageDimensions]. *)
Record PageDimensions := mkPageDimensions {
  width : Q;
  height : Q
}.

Inductive FieldType := text | date | checkbox.

Inductive FontSize := small | medium | large.

(** [Field].  [page_number] is the 1-indexed page, an integer; [fontSize] is
    the optional property [fontSize?]. *)
Record Field := mkField {
  id : string;
  key : string;
  type : FieldType;
  page_number : Z;
  fontSize : option FontSize;
  rect : FieldRect
}.

(** [DrawingState]. *)
Record DrawingState := mkDrawingState {
  isDrawing : bool;
  startX : Q;
  startY : Q;
  currentX : Q;
  currentY : Q;
  pageNumber : Z
}.

End Types.
Import Types.

#[global] Instance FieldType_eq_dec : EqDecision FieldType.
Proof. solve_decision. Defined.

#[global] Instance FontSize_eq_dec : EqDecision FontSize.
Proof. solve_decision. Defined.


Definition PixelRect_equiv (a b : PixelRect) : Prop :=
  px_x a == px_x b /\ px_y a == px_y b /\
  px_w a == px_w b /\ px_h a == px_h b.

(** The page-bounds invariant of a stored rectangle. *)
Definition within_page (r : FieldRect) : Prop :=
  0 <= rect_x r /\ 0 <= rect_y r /\
  rect_x r + rect_w r <= 1 /\ rect_y r + rect_h r <= 1.

(** The same four comparisons as a boolean, for evaluation. *)
Definition within_pageb (r : FieldRect) : bool :=
  Qle_bool 0 (rect_x r) && Qle_bool 0 (rect_y r) &&
  Qle_bool (rect_x r + rect_w r) 1 && Qle_bool (rect_y r + rect_h r) 1.

(* ===================================================================== *)
(** ** [src/lib/coordinates.ts]                                           *)
(* ===================================================================== *)

Module Coordinates.

Definition pixelsToPercentage (pixelRect : PixelRect)
    (pageDimensions : PageDimensions) : FieldRect :=
  {| rect_x := px_x pixelRect / width pageDimensions;
     rect_y := px_y pixelRect / height pageDimensions;
     rect_w := px_w pixelRect / width pageDimensions;
     rect_h := px_h pixelRect / height pageDimensions |}.

Definition percentageToPixels (percentRect : FieldRect)
    (pageDimensions : PageDimensions) : PixelRect :=
  {| px_x := rect_x percentRect * width pageDimensions;
     px_y := rect_y percentRect * height pageDimensions;
     px_w := rect_w percentRect * width pageDimensions;
     px_h := rect_h percentRect * height pageDimensions |}.

(** The result object [{x0, y0, x1, y1}] of [percentageToPDFCoords]. *)
Record PDFCoords := mkPDFCoords {
  x0 : Q;
  y0 : Q;
  x1 : Q;
  y1 : Q
}.

Definition percentageToPDFCoords (percentRect : FieldRect)
    (pdfPageDimensions : PageDimensions) : PDFCoords :=
  let x0 := rect_x percentRect * width pdfPageDimensions in
  let y0 := rect_y percentRect * height pdfPageDimensions in
  let x1 := (rect_x percentRect + rect_w percentRect) * width pdfPageDimensions in
  let y1 := (rect_y percentRect + rect_h percentRect) * height pdfPageDimensions in
  {| x0 := x0; y0 := y0; x1 := x1; y1 := y1 |}.

Definition normalizeRect (startX startY endX endY : Q) : PixelRect :=
  {| px_x := Qmin startX endX;
     px_y := Qmin startY endY;
     px_w := Qabs (endX - startX);
     px_h := Qabs (endY - startY) |}.


(** [MIN_FIELD_SIZE_PERCENT = 0.01]. *)
Definition MIN_FIELD_SIZE_PERCENT : Q := 1 # 100.

Definition isValidFieldSize (rect : FieldRect) : bool :=
  Qle_bool MIN_FIELD_SIZE_PERCENT (rect_w rect) &&
  Qle_bool MIN_FIELD_SIZE_PERCENT (rect_h rect).

End Coordinates.

(** The two conversions again, with the result of every division and
    multiplication passed through a rounding operator [rnd], as a machine
    with finite precision computes them.  With the identity for [rnd] they
    are the exact ones above. *)
Module Rounded.

Section WithRounding.

Variable rnd : Q -> Q.

Definition pixelsToPercentage (pixelRect : PixelRect)
    (pageDimensions : PageDimensions) : FieldRect :=
  {| rect_x := rnd (px_x pixelRect / width pageDimensions);
     rect_y := rnd (px_y pixelRect / height pageDimensions);
     rect_w := rnd (px_w pixelRect / width pageDimensions);
     rect_h := rnd (px_h pixelRect / height pageDimensions) |}.

Definition percentageToPixels (percentRect : FieldRect)
    (pageDimensions : PageDimensions) : PixelRect :=
  {| px_x := rnd (rect_x percentRect * width pageDimensions);
     px_y := rnd (rect_y percentRect * height pageDimensions);
     px_w := rnd (rect_w percentRect * width pageDimensions);
     px_h := rnd (rect_h percentRect * height pageDimensions) |}.

End WithRounding.

End Rounded.

(* ===================================================================== *)
(** ** [src/lib/utils.ts]                                                 *)
(* ===================================================================== *)

Module Utils.

(** [Math.min(Math.max(value, min), max)]. *)
Definition clamp (value min max : Q) : Q :=
  Qmin (Qmax value min) max.

End Utils.

(* ===================================================================== *)
(** ** [src/store/template.ts]                                            *)
(* ===================================================================== *)

Module TemplateStore.

(** The slices of the store that the field operations read or write.
    ([currentTemplate], [pdfFile], [pdfUrl], [pageCount] and [templateName]
    are never touched by them.) *)
Record TemplateState := mkTemplateState {
  fields : list Field;
  selectedFieldId : option string;
  drawingState : DrawingState;
  pageDimensions : gmap Z PageDimensions
}.

(** [Partial<Field>]: each property is present or not. *)
Record FieldUpdates := mkFieldUpdates {
  upd_id : option string;
  upd_key : option string;
  upd_type : option FieldType;
  upd_page_number : option Z;
  upd_fontSize : option FontSize;
  upd_rect : option FieldRect
}.

Definition noUpdates : FieldUpdates :=
  {| upd_id := None; upd_key := None; upd_type := None;
     upd_page_number := None; upd_fontSize := None; upd_rect := None |}.

(** [{ ...f, ...updates }] *)
Definition spreadField (f : Field) (updates : FieldUpdates) : Field :=
  {| id := default (Types.id f) (upd_id updates);
     key := default (key f) (upd_key updates);
     type := default (type f) (upd_type updates);
     page_number := default (page_number f) (upd_page_number updates);
     fontSize := match upd_fontSize updates with
                 | Some s => Some s
                 | None => fontSize f
                 end;
     rect := default (rect f) (upd_rect updates) |}.

(** The object literal [{ rect: r }]. *)
Definition rectUpdate (r : FieldRect) : FieldUpdates :=
  {| upd_id := None; upd_key := None; upd_type := None;
     upd_page_number := None; upd_fontSize := None; upd_rect := Some r |}.

(** [Partial<DrawingState>] *)
Record DrawingUpdates := mkDrawingUpdates {
  upd_isDrawing : option bool;
  upd_startX : option Q;
  upd_startY : option Q;
  upd_currentX : option Q;
  upd_currentY : option Q;
  upd_pageNumber : option Z
}.

Definition spreadDrawing (d : DrawingState) (u : DrawingUpdates) : DrawingState :=
  {| isDrawing := default (isDrawing d) (upd_isDrawing u);
     startX := default (startX d) (upd_startX u);
     startY := default (startY d) (upd_startY u);
     currentX := default (currentX d) (upd_currentX u);
     currentY := default (currentY d) (upd_currentY u);
     pageNumber := default (pageNumber d) (upd_pageNumber u) |}.

Definition initialDrawingState : DrawingState :=
  {| isDrawing := false; startX := 0; startY := 0;
     currentX := 0; currentY := 0; pageNumber := 1%Z |}.

Definition initialState : TemplateState :=
  {| fields := []; selectedFieldId := None;
     drawingState := initialDrawingState; pageDimensions := ∅ |}.

Definition addField (field : Field) (state : TemplateState) : TemplateState :=
  {| fields := fields state ++ [field];
     selectedFieldId := selectedFieldId state;
     drawingState := drawingState state;
     pageDimensions := pageDimensions state |}.

Definition updateField (id : string) (updates : FieldUpdates)
    (state : TemplateState) : TemplateState :=
  {| fields := (fun f => if decide (Types.id f = id)
                         then spreadField f updates else f)
               <$> fields state;
     selectedFieldId := selectedFieldId state;
     drawingState := drawingState state;
     pageDimensions := pageDimensions state |}.

Definition removeField (id : string) (state : TemplateState) : TemplateState :=
  {| fields := filter (fun f => Types.id f <> id) (fields state);
     selectedFieldId := if decide (selectedFieldId state = Some id)
                        then None else selectedFieldId state;
     drawingState := drawingState state;
     pageDimensions := pageDimensions state |}.

Definition setFields (fields' : list Field) (state : TemplateState) : TemplateState :=
  {| fields := fields';
     selectedFieldId := selectedFieldId state;
     drawingState := drawingState state;
     pageDimensions := pageDimensions state |}.

Definition setSelectedFieldId (id : option string)
    (state : TemplateState) : TemplateState :=
  {| fields := fields state;
     selectedFieldId := id;
     drawingState := drawingState state;
     pageDimensions := pageDimensions state |}.

Definition setDrawingState (u : DrawingUpdates)
    (prev : TemplateState) : TemplateState :=
  {| fields := fields prev;
     selectedFieldId := selectedFieldId prev;
     drawingState := spreadDrawing (drawingState prev) u;
     pageDimensions := pageDimensions prev |}.

Definition resetDrawingState (state : TemplateState) : TemplateState :=
  {| fields := fields state;
     selectedFieldId := selectedFieldId state;
     drawingState := initialDrawingState;
     pageDimensions := pageDimensions state |}.

Definition setPageDimensions (pageNumber : Z) (dimensions : PageDimensions)
    (state : TemplateState) : TemplateState :=
  {| fields := fields state;
     selectedFieldId := selectedFieldId state;
     drawingState := drawingState state;
     pageDimensions := <[pageNumber := dimensions]> (pageDimensions state) |}.

(** The registry operations named by the field registry interface. *)
Inductive RegistryOp :=
| OpAddField (field : Field)
| OpUpdateField (id : string) (updates : FieldUpdates)
| OpRemoveField (id : string)
| OpSetFields (fields' : list Field).

Definition runOp (op : RegistryOp) (state : TemplateState) : TemplateState :=
  match op with
  | OpAddField field => addField field state
  | OpUpdateField id updates => updateField id updates state
  | OpRemoveField id => removeField id state
  | OpSetFields fields' => setFields fields' state
  end.

(** "[selectedFieldId] is null or the id of a field of the registry". *)
Definition selection_consistent (state : TemplateState) : Prop :=
  match selectedFieldId state with
  | None => True
  | Some sid => exists f, f ∈ fields state /\ Types.id f = sid
  end.

Definition selection_consistentb (state : TemplateState) : bool :=
  match selectedFieldId state with
  | None => true
  | Some sid => existsb (fun f => bool_decide (Types.id f = sid)) (fields state)
  end.

End TemplateStore.

(* ===================================================================== *)
(** ** [src/components/FieldRectangle.tsx]                                *)
(* ===================================================================== *)

Module FieldRectangle.

Import Coordinates Utils TemplateStore.

Inductive DragMode :=
| none | move | resize_nw | resize_ne | resize_sw | resize_se.

#[global] Instance DragMode_eq_dec : EqDecision DragMode.
Proof. solve_decision. Defined.

(** [MIN_SIZE = 20], the minimum size in pixels. *)
Definition MIN_SIZE : Q := 20.

(** The [useState] cells of one rectangle that the drag handlers use. *)
Record Local := mkLocal {
  dragMode : DragMode;
  dragStart : Q * Q;
  initialRect : PixelRect;
  isEditing : bool
}.

(** A pointer event: [(clientX, clientY)]. *)
Definition MouseEvent : Type := (Q * Q)%type.
Definition clientX (e : MouseEvent) : Q := fst e.
Definition clientY (e : MouseEvent) : Q := snd e.

(** The rectangle [newRect] that [handleMouseMove] builds from [initialRect]
    and the pointer delta, mode by mode. *)
Definition newRect (dragMode : DragMode) (initialRect : PixelRect)
    (deltaX deltaY : Q) (pageDimensions : PageDimensions) : PixelRect :=
  match dragMode with
  | none => initialRect
  | move =>
      {| px_x := clamp (px_x initialRect + deltaX) 0
                       (width pageDimensions - px_w initialRect);
         px_y := clamp (px_y initialRect + deltaY) 0
                       (height pageDimensions - px_h initialRect);
         px_w := px_w initialRect;
         px_h := px_h initialRect |}
  | resize_se =>
      {| px_x := px_x initialRect;
         px_y := px_y initialRect;
         px_w := clamp (px_w initialRect + deltaX) MIN_SIZE
                       (width pageDimensions - px_x initialRect);
         px_h := clamp (px_h initialRect + deltaY) MIN_SIZE
                       (height pageDimensions - px_y initialRect) |}
  | resize_sw =>
      let newX := clamp (px_x initialRect + deltaX) 0
                        (px_x initialRect + px_w initialRect - MIN_SIZE) in
      {| px_x := newX;
         px_y := px_y initialRect;
         px_w := px_w initialRect + (px_x initialRect - newX);
         px_h := clamp (px_h initialRect + deltaY) MIN_SIZE
                       (height pageDimensions - px_y initialRect) |}
  | resize_ne =>
      let newY := clamp (px_y initialRect + deltaY) 0
                        (px_y initialRect + px_h initialRect - MIN_SIZE) in
      {| px_x := px_x initialRect;
         px_y := newY;
         px_w := clamp (px_w initialRect + deltaX) MIN_SIZE
                       (width pageDimensions - px_x initialRect);
         px_h := px_h initialRect + (px_y initialRect - newY) |}
  | resize_nw =>
      let newX := clamp (px_x initialRect + deltaX) 0
                        (px_x initialRect + px_w initialRect - MIN_SIZE) in
      let newY := clamp (px_y initialRect + deltaY) 0
                        (px_y initialRect + px_h initialRect - MIN_SIZE) in
      {| px_x := newX;
         px_y := newY;
         px_w := px_w initialRect + (px_x initialRect - newX);
         px_h := px_h initialRect + (px_y initialRect - newY) |}
  end.

(** [handleMouseDown(e, mode)]: nothing while the key is being edited;
    otherwise records the mode, the pointer and the rectangle in pixels, and
    selects the field.  [pixelRect] is the prop computed by the overlay. *)
Definition handleMouseDown (field : Field) (pixelRect : PixelRect)
    (mode : DragMode) (e : MouseEvent)
    (loc : Local) (state : TemplateState) : Local * TemplateState :=
  if isEditing loc then (loc, state)
  else ({| dragMode := mode;
           dragStart := (clientX e, clientY e);
           initialRect := pixelRect;
           isEditing := isEditing loc |},
        setSelectedFieldId (Some (Types.id field)) state).

(** The document-level [mousemove] listener; it is installed only while
    [dragMode] is not ['none']. *)
Definition handleMouseMove (field : Field) (pageDimensions : PageDimensions)
    (e : MouseEvent) (loc : Local) (state : TemplateState) : TemplateState :=
  match dragMode loc with
  | none => state
  | mode =>
      let deltaX := clientX e - fst (dragStart loc) in
      let deltaY := clientY e - snd (dragStart loc) in
      let percentRect :=
        pixelsToPercentage
          (newRect mode (initialRect loc) deltaX deltaY pageDimensions)
          pageDimensions in
      updateField (Types.id field) (rectUpdate percentRect) state
  end.

(** The document-level [mouseup] listener. *)
Definition handleMouseUp (loc : Local) : Local :=
  {| dragMode := none;
     dragStart := dragStart loc;
     initialRect := initialRect loc;
     isEditing := isEditing loc |}.

(** One whole drag of a field that is in the registry, as the browser
    delivers it: [handleMouseDown] on the body or on a handle, then
    [handleMouseMove] for each pointer move, then [handleMouseUp].  The
    rectangle in pixels is the prop that the overlay computes for the field
    at the time of the press; [dragStart] and [initialRect] stay those of
    the press until the release. *)
Definition drag (field : Field) (pageDimensions : PageDimensions)
    (mode : DragMode) (press : MouseEvent) (moves : list MouseEvent)
    (loc : Local) (state : TemplateState) : Local * TemplateState :=
  let pixelRect := percentageToPixels (rect field) pageDimensions in
  let '(loc1, state1) := handleMouseDown field pixelRect mode press loc state in
  let state2 :=
    foldl (fun st e => handleMouseMove field pageDimensions e loc1 st)
          state1 moves in
  (handleMouseUp loc1, state2).

Definition idle : Local :=
  {| dragMode := none; dragStart := (0, 0);
     initialRect := {| px_x := 0; px_y := 0; px_w := 0; px_h := 0 |};
     isEditing := false |}.

End FieldRectangle.

(* ===================================================================== *)
(** ** [src/components/FieldOverlay.tsx]                                  *)
(* ===================================================================== *)

Module FieldOverlay.

Import Coordinates TemplateStore.

(** [`field_${fields.length + 1}`] *)
Definition defaultKey (n : nat) : string :=
  ("field_" ++ NilZero.string_of_uint (Nat.to_uint (n + 1)))%string.

(** [handleMouseDown]: [onField] tells whether the event target lies inside
    an existing [.field-rect]; [pos] is the pointer relative to the overlay. *)
Definition handleMouseDown (pageNumber : Z) (onField : bool) (pos : Q * Q)
    (state : TemplateState) : TemplateState :=
  if onField then state
  else
    setSelectedFieldId None
      (setDrawingState
         {| upd_isDrawing := Some true;
            upd_startX := Some (fst pos); upd_startY := Some (snd pos);
            upd_currentX := Some (fst pos); upd_currentY := Some (snd pos);
            upd_pageNumber := Some pageNumber |} state).

Definition handleMouseMove (pageNumber : Z) (pos : Q * Q)
    (state : TemplateState) : TemplateState :=
  if negb (isDrawing (drawingState state))
     || negb (bool_decide (Types.pageNumber (drawingState state) = pageNumber))
  then state
  else
    setDrawingState
      {| upd_isDrawing := None; upd_startX := None; upd_startY := None;
         upd_currentX := Some (fst pos); upd_currentY := Some (snd pos);
         upd_pageNumber := None |} state.

(** [handleMouseUp].  [newId] is the value that [generateId()] returns for
    this event (time and random based in the source).  The guard
    [!isDrawing || drawingState.pageNumber !== pageNumber || !dimensions]
    is split into the lookup of the dimensions and the two other tests. *)
Definition handleMouseUp (pageNumber : Z) (newId : string)
    (state : TemplateState) : TemplateState :=
  let drawingState := drawingState state in
  match pageDimensions state !! pageNumber with
  | Some dimensions =>
      if negb (isDrawing drawingState)
         || negb (bool_decide (Types.pageNumber drawingState = pageNumber))
      then resetDrawingState state
      else
        let pixelRect :=
          normalizeRect (startX drawingState) (startY drawingState)
                        (currentX drawingState) (currentY drawingState) in
        let percentRect := pixelsToPercentage pixelRect dimensions in
        if isValidFieldSize percentRect then
          let newField :=
            {| id := newId;
               key := defaultKey (length (fields state));
               type := text;
               page_number := pageNumber;
               fontSize := None;
               rect := percentRect |} in
          resetDrawingState
            (setSelectedFieldId (Some (Types.id newField))
               (addField newField state))
        else resetDrawingState state
  | None => resetDrawingState state
  end.

Definition handleMouseLeave (state : TemplateState) : TemplateState :=
  if isDrawing (drawingState state) then resetDrawingState state else state.

(** [fields.filter((f) => f.page_number === pageNumber)] *)
Definition pageFields (pageNumber : Z) (state : TemplateState) : list Field :=
  filter (fun f => page_number f = pageNumber) (fields state).

(** The dashed preview: [drawingPreviewRect], [null] when no drawing is
    active on this page. *)
Definition drawingPreviewRect (pageNumber : Z)
    (state : TemplateState) : option PixelRect :=
  let d := drawingState state in
  if isDrawing d && bool_decide (Types.pageNumber d = pageNumber)
  then Some (normalizeRect (startX d) (startY d) (currentX d) (currentY d))
  else None.

End FieldOverlay.

(* ===================================================================== *)
(** ** [src/components/FieldSidebar.tsx]                                  *)
(* ===================================================================== *)

Module FieldSidebar.

Import TemplateStore.

(** [fields.find(f => f.id === selectedFieldId)] *)
Definition selectedField (state : TemplateState) : option Field :=
  match selectedFieldId state with
  | Some sid => List.find (fun f => bool_decide (Types.id f = sid)) (fields state)
  | None => None
  end.

(** The argument of [handleApplyToAll]: ['w' | 'h' | 'both']. *)
Inductive ApplyProperty := apply_w | apply_h | apply_both.

(** [Partial<FieldRect>] restricted to the two properties that are set. *)
Record RectUpdates := mkRectUpdates {
  upd_w : option Q;
  upd_h : option Q
}.

(** [{ ...field.rect, ...updates }] *)
Definition spreadRect (r : FieldRect) (updates : RectUpdates) : FieldRect :=
  {| rect_x := rect_x r;
     rect_y := rect_y r;
     rect_w := default (rect_w r) (upd_w updates);
     rect_h := default (rect_h r) (upd_h updates) |}.

Definition applyUpdates (property : ApplyProperty) (selected : Field) : RectUpdates :=
  {| upd_w := match property with
              | apply_w | apply_both => Some (rect_w (rect selected))
              | apply_h => None
              end;
     upd_h := match property with
              | apply_h | apply_both => Some (rect_h (rect selected))
              | apply_w => None
              end |}.

(** [handleApplyToAll(property)]: one [updateField] per field of the
    rendered list that shares the page of the selected field. *)
Definition handleApplyToAll (property : ApplyProperty)
    (state : TemplateState) : TemplateState :=
  match selectedField state with
  | None => state
  | Some selected =>
      let samePage :=
        filter (fun f => page_number f = page_number selected
                         /\ Types.id f <> Types.id selected)
               (fields state) in
      foldl (fun st field =>
               updateField (Types.id field)
                 (rectUpdate
                    (spreadRect (rect field) (applyUpdates property selected)))
                 st)
            state samePage
  end.

(** [handleDelete(fieldId)], as far as the store is concerned. *)
Definition handleDelete (fieldId : string) (state : TemplateState) : TemplateState :=
  removeField fieldId state.

(** The first argument of [handleRectChange]: [keyof FieldRect]. *)
Inductive RectProperty := prop_x | prop_y | prop_w | prop_h.

(** [Math.max(0, Math.min(100, numValue)) / 100] *)
Definition clampPercent (numValue : Q) : Q :=
  Qmax 0 (Qmin 100 numValue) / 100.

(** [{ ...selectedField.rect, [property]: clampedValue }] followed by the
    four adjustments that keep position plus size at 100% or below. *)
Definition adjustRect (property : RectProperty) (clampedValue : Q)
    (r : FieldRect) : FieldRect :=
  match property with
  | prop_x =>
      let x := clampedValue in
      {| rect_x := x; rect_y := rect_y r;
         rect_w := if Qle_bool (x + rect_w r) 1 then rect_w r else 1 - x;
         rect_h := rect_h r |}
  | prop_y =>
      let y := clampedValue in
      {| rect_x := rect_x r; rect_y := y;
         rect_w := rect_w r;
         rect_h := if Qle_bool (y + rect_h r) 1 then rect_h r else 1 - y |}
  | prop_w =>
      let w := clampedValue in
      {| rect_x := if Qle_bool (rect_x r + w) 1 then rect_x r else 1 - w;
         rect_y := rect_y r;
         rect_w := w; rect_h := rect_h r |}
  | prop_h =>
      let h := clampedValue in
      {| rect_x := rect_x r;
         rect_y := if Qle_bool (rect_y r + h) 1 then rect_y r else 1 - h;
         rect_w := rect_w r; rect_h := h |}
  end.

(** [handleRectChange(property, value)].  [numValue] is the result of
    [parseFloat(value)], [None] standing for [NaN]; [!selectedFieldId] holds
    for [null] and for the empty string. *)
Definition handleRectChange (property : RectProperty) (numValue : option Q)
    (state : TemplateState) : TemplateState :=
  match selectedFieldId state, selectedField state, numValue with
  | Some sid, Some selected, Some n =>
      if bool_decide (sid = EmptyString) then state
      else
        updateField sid
          (rectUpdate (adjustRect property (clampPercent n) (rect selected)))
          state
  | _, _, _ => state
  end.

(** [fields.reduce(...)]: the fields grouped by page, each group in the
    order of the list ([acc[page]] is created empty on first use). *)
Definition fieldsByPage (fields : list Field) : gmap Z (list Field) :=
  foldl (fun acc field =>
           let page := page_number field in
           <[page := default [] (acc !! page) ++ [field]]> acc)
        ∅ fields.

(** [Object.keys(fieldsByPage).map(Number).sort((a, b) => a - b)]: the page
    numbers that have a group, in ascending order. *)
Definition pageNumbers (fields : list Field) : list Z :=
  merge_sort Z.le (map fst (map_to_list (fieldsByPage fields))).

(** The field list as the sidebar renders it: page by page, and inside a
    page [fieldsByPage[pageNum]] from first to last. *)
Definition listing (fields : list Field) : list Field :=
  flat_map (fun pageNum => default [] (fieldsByPage fields !! pageNum))
           (pageNumbers fields).

End FieldSidebar.

(* ===================================================================== *)
(** ** JavaScript values of a generation record                           *)
(* ===================================================================== *)

Module Js.

(** What [data[field.key]] can be for a record [data] parsed from a flat
    JSON object ([GenerationData]): a string, a boolean, a number or [null]
    for an own key, [undefined] for a key that is found nowhere, and, for a
    key that the record lacks but [Object.prototype] has, what the object
    inherits: one of the built-in functions, or [Object.prototype] itself
    for [__proto__]. *)
Inductive Value :=
| Undefined
| Null
| Bool (b : bool)
| Number (q : Q)
| Str (s : string)
| NativeFunction (name : string)
| ObjectPrototype.

(** The properties of [Object.prototype], which every object made by
    [JSON.parse] or by [{}] inherits: [constructor] is the function
    [Object]; the other methods are functions of their own name;
    [__proto__] reads the prototype of the object. *)
Definition Object_prototype_methods : list string :=
  [ "hasOwnProperty"; "isPrototypeOf"; "propertyIsEnumerable";
    "toLocaleString"; "toString"; "valueOf";
    "__defineGetter__"; "__defineSetter__";
    "__lookupGetter__"; "__lookupSetter__" ]%string.

Definition Object_prototype (key : string) : option Value :=
  if bool_decide (key = "constructor"%string) then Some (NativeFunction "Object")
  else if bool_decide (key ∈ Object_prototype_methods)
       then Some (NativeFunction key)
  else if bool_decide (key = "__proto__"%string) then Some ObjectPrototype
  else None.

(** [data[key]]: the own property of the record if it has one, otherwise
    the property inherited from [Object.prototype], otherwise
    [undefined]. *)
Definition get (data : gmap string Value) (key : string) : Value :=
  match data !! key with
  | Some v => v
  | None => default Undefined (Object_prototype key)
  end.

(** [sample[key] = value] on a plain object, for a string or boolean
    [value]: an own property is created or overwritten, except for
    [__proto__], whose inherited setter ignores a value that is neither an
    object nor [null]. *)
Definition set (key : string) (value : Value)
    (data : gmap string Value) : gmap string Value :=
  if bool_decide (key = "__proto__"%string) then data
  else <[key := value]> data.

(** [value === undefined], [value === null], [value === ''], [value === true] *)
Definition is_undefined (v : Value) : bool :=
  match v with Undefined => true | _ => false end.

Definition is_null (v : Value) : bool :=
  match v with Null => true | _ => false end.

Definition is_empty_string (v : Value) : bool :=
  match v with Str s => bool_decide (s = EmptyString) | _ => false end.

Definition is_true (v : Value) : bool :=
  match v with Bool b => b | _ => false end.

(** [c.toLowerCase()] on one code unit: the letters [A]..[Z] move to
    [a]..[z]; every other byte is kept. *)
Definition lower_ascii (c : ascii) : ascii :=
  let n := nat_of_ascii c in
  if (65 <=? n)%nat && (n <=? 90)%nat then ascii_of_nat (n + 32) else c.

(** [s.toLowerCase()] *)
Fixpoint toLowerCase (s : string) : string :=
  match s with
  | EmptyString => EmptyString
  | String c rest => String (lower_ascii c) (toLowerCase rest)
  end.

Section WithNumberToString.

(** [Number::toString] of the host, for the number values of a record. *)
Variable Number_toString : Q -> string.

(** [String(value)].  A built-in function prints as its source text, an
    object without [toString] of its own as ["[object Object]"]. *)
Definition String_ (v : Value) : string :=
  match v with
  | Undefined => "undefined"
  | Null => "null"
  | Bool true => "true"
  | Bool false => "false"
  | Number q => Number_toString q
  | Str s => s
  | NativeFunction name => "function " ++ name ++ "() { [native code] }"
  | ObjectPrototype => "[object Object]"
  end.

End WithNumberToString.

(** A [Number::toString] for examples: decimal digits of an integer-valued
    number, as the host prints them below 1e21. *)
Definition integer_toString (q : Q) : string :=
  NilZero.string_of_int (Z.to_int (Qfloor q)).

End Js.

(* ===================================================================== *)
(** ** [src/components/GenerationModal.tsx]: the overlay loop             *)
(* ===================================================================== *)

Module GenerationModal.

(** One call [page.drawText(text, options)] on [pages[pageIndex]].  The
    font and the colour are the same in every call and are left out;
    [maxWidth] and [lineHeight] are only passed for text and date fields. *)
Record DrawText := mkDrawText {
  pageIndex : Z;
  drawn : string;
  x : Q;
  y : Q;
  size : Q;
  maxWidth : option Q;
  lineHeight : option Q
}.

(** The two kinds of instruction: a mark is the call of the checkbox branch
    (an ['X'] without wrapping options), a text is the call of the other
    branch. *)
Inductive Kind := mark | text_.

Definition kind (c : DrawText) : Kind :=
  match maxWidth c with
  | None => mark
  | Some _ => text_
  end.

(** [fontSizeMap] *)
Definition fontSizeMap (s : FontSize) : Q :=
  match s with
  | small => 7
  | medium => 9
  | large => 12
  end.

(** [fontSizeMap[field.fontSize || 'medium']] *)
Definition fontSizeOf (field : Field) : Q :=
  fontSizeMap (default medium (fontSize field)).

Section WithNumberToString.

Variable Number_toString : Q -> string.

(** The checkbox test
    [String(value).toLowerCase() === 'true' || value === true]. *)
Definition checked (value : Js.Value) : bool :=
  bool_decide (Js.toLowerCase (Js.String_ Number_toString value) = "true"%string)
  || Js.is_true value.

(** The body of [for (const field of fields)], after the page has been
    resolved: the draw calls for one field on a page of the given size. *)
Definition drawField (field : Field) (value : Js.Value)
    (pageIndex : Z) (pageSize : PageDimensions) : list DrawText :=
  let width := width pageSize in
  let height := height pageSize in
  let x := rect_x (rect field) * width + 2 in
  let fontSize := fontSizeOf field in
  let y := height - (rect_y (rect field) * height) - fontSize - 2 in
  let boxWidth := (rect_w (rect field) * width) - 4 in
  let lineHeight := fontSize * (12 # 10) in
  match type field with
  | checkbox =>
      if checked value then
        [ {| pageIndex := pageIndex; drawn := "X"; x := x; y := y;
             size := fontSize; maxWidth := None; lineHeight := None |} ]
      else []
  | _ =>
      [ {| pageIndex := pageIndex;
           drawn := Js.String_ Number_toString value;
           x := x; y := y; size := fontSize;
           maxWidth := Some boxWidth; lineHeight := Some lineHeight |} ]
  end.

(** One iteration of the overlay loop, with its two [continue] guards.
    [pages] holds the size of each page of the loaded document. *)
Definition overlayField (pages : list PageDimensions)
    (data : gmap string Js.Value) (field : Field) : list DrawText :=
  let value := Js.get data (key field) in
  if Js.is_undefined value || Js.is_null value || Js.is_empty_string value
  then []
  else
    let pageIndex := (page_number field - 1)%Z in
    if (pageIndex <? 0)%Z || (pageIndex >=? Z.of_nat (length pages))%Z
    then []
    else
      match pages !! Z.to_nat pageIndex with
      | Some pageSize => drawField field value pageIndex pageSize
      | None => []
      end.

(** The whole loop: the calls in the order of the field list. *)
Definition overlay (pages : list PageDimensions)
    (data : gmap string Js.Value) (fields : list Field) : list DrawText :=
  flat_map (overlayField pages data) fields.

End WithNumberToString.

(** The value that [generateSampleJson] stores for a field; [today] is
    [new Date().toISOString().split('T')[0]]. *)
Definition sampleValue (today : string) (f : Field) : Js.Value :=
  match type f with
  | checkbox => Js.Bool true
  | date => Js.Str today
  | text => Js.Str ("Value for " ++ key f)
  end.

(** [generateSampleJson]: the record [sample] after the [forEach]; a later
    field with the same key overwrites an earlier one.  (The record is put
    in the input box as JSON text and parsed back by [handlePreview];
    strings and booleans come back as they were.) *)
Definition generateSampleJson (today : string)
    (fields : list Field) : gmap string Js.Value :=
  foldl (fun sample f => Js.set (key f) (sampleValue today f) sample) ∅ fields.

End GenerationModal.


(* ===================================================================== *)
(** ** [src/app/generate/page.tsx]: [validateJson]                        *)
(* ===================================================================== *)

Module GeneratePage.

(** What [validateJson] finds out about its input before it compares keys:
    the text is blank ([!input.trim()]), is not JSON, parses to something
    that is not an object ([!data || typeof data !== 'object']), or parses
    to an object whose [Object.keys] are [dataKeys], in the order of the
    host. *)
Inductive Input :=
| Blank
| InvalidSyntax
| NotAnObject
| Parsed (dataKeys : list string).

(** The two state cells that [validateJson] sets. *)
Record Validation := mkValidation {
  validationErrors : list string;
  matchedFields : list string
}.

(** [l.join(sep)] *)
Fixpoint join (sep : string) (l : list string) : string :=
  match l with
  | [] => EmptyString
  | [a] => a
  | a :: rest => (a ++ sep ++ join sep rest)%string
  end.

(** [validateJson(input)].  The list [missing] of the source is computed
    and never used. *)
Definition validateJson (input : Input) (fields : list Field) : Validation :=
  match input with
  | Blank => {| validationErrors := []; matchedFields := [] |}
  | InvalidSyntax =>
      {| validationErrors := ["Invalid JSON syntax"%string];
         matchedFields := [] |}
  | NotAnObject =>
      {| validationErrors := ["JSON must be an object"%string];
         matchedFields := [] |}
  | Parsed dataKeys =>
      let templateKeys := key <$> fields in
      let matched := filter (fun k => k ∈ templateKeys) dataKeys in
      let unmatched := filter (fun k => k ∉ templateKeys) dataKeys in
      let errors :=
        if (0 <? length unmatched)%nat
        then [("Unknown keys (will be ignored): " ++ join ", " unmatched)%string]
        else [] in
      {| validationErrors := errors; matchedFields := matched |}
  end.

End GeneratePage.
(* ===================================================================== *)
(** * Statement-level predicates and example data                         *)
(* ===================================================================== *)

Module Examples.

Import Coordinates Utils TemplateStore.

(** The relation between a rectangle and its point rectangle as the
    description of the transform words it, with [(y + w)] in [y1]. *)
Definition pdfcoords_with_y_plus_w (r : FieldRect) (d : PageDimensions) : Prop :=
  let c := percentageToPDFCoords r d in
  x0 c == rect_x r * width d /\
  x1 c == (rect_x r + rect_w r) * width d /\
  y0 c == rect_y r * height d /\
  y1 c == (rect_y r + rect_w r) * height d.

(** A page rendered at 1000 x 1000 pixels. *)
Definition page1000 : PageDimensions := {| width := 1000; height := 1000 |}.

(** A field that lies inside the page, 15 pixels wide at the left edge (1.5%
    of the page width, above the 1% minimum of a drawn field). *)
Definition narrow_field : Field :=
  {| id := "f_a"; key := "field_1"; type := text; page_number := 1;
     fontSize := None;
     rect := {| rect_x := 0; rect_y := 1 # 2;
                rect_w := 15 # 1000; rect_h := 1 # 10 |} |}.

Definition narrow_state : TemplateState :=
  {| fields := [narrow_field]; selectedFieldId := Some "f_a"%string;
     drawingState := initialDrawingState;
     pageDimensions := {[ 1%Z := page1000 ]} |}.

(** A rectangle in pixels wider and higher than [page1000]. *)
Definition oversized_rect : PixelRect :=
  {| px_x := 10; px_y := 20; px_w := 1200; px_h := 1500 |}.

Definition oversized_field : Field :=
  {| id := "f_b"; key := "field_1"; type := text; page_number := 1;
     fontSize := None;
     rect := {| rect_x := 1 # 100; rect_y := 2 # 100;
                rect_w := 12 # 10; rect_h := 15 # 10 |} |}.

Definition oversized_state : TemplateState :=
  {| fields := [oversized_field]; selectedFieldId := Some "f_b"%string;
     drawingState := initialDrawingState;
     pageDimensions := {[ 1%Z := page1000 ]} |}.

(** The component state while [oversized_rect] is being moved. *)
Definition moving_oversized : FieldRectangle.Local :=
  {| FieldRectangle.dragMode := FieldRectangle.move;
     FieldRectangle.dragStart := (40, 40);
     FieldRectangle.initialRect := oversized_rect;
     FieldRectangle.isEditing := false |}.

(** Grabbing the bottom-left handle of [narrow_field] at [(0, 600)] and
    moving the pointer one pixel to the right. *)
Definition narrow_resize : FieldRectangle.Local * TemplateState :=
  FieldRectangle.drag narrow_field page1000 FieldRectangle.resize_sw
    (0, 600) [(1, 600)] FieldRectangle.idle narrow_state.

(** A field as an imported template could carry it. *)
Definition imported_field : Field :=
  {| id := "f_imp"; key := "surname"; type := text; page_number := 1;
     fontSize := Some small;
     rect := {| rect_x := 1 # 10; rect_y := 1 # 10;
                rect_w := 3 # 10; rect_h := 1 # 20 |} |}.

(** An update that renames the id of a field. *)
Definition rename_id : FieldUpdates :=
  {| upd_id := Some "f_z"%string; upd_key := None; upd_type := None;
     upd_page_number := None; upd_fontSize := None; upd_rect := None |}.

(** The operations after which the ids of the registry are the old ones,
    possibly with one more or some fewer: every one but [setFields] and an
    [updateField] whose update carries an [id]. *)
Definition keeps_ids (op : RegistryOp) : Prop :=
  match op with
  | OpAddField _ | OpRemoveField _ => True
  | OpUpdateField _ updates => upd_id updates = None
  | OpSetFields _ => False
  end.


(** "A present, non-null, non-empty value". *)
Definition present (v : Js.Value) : Prop :=
  v <> Js.Undefined /\ v <> Js.Null /\ v <> Js.Str EmptyString.


(** A document of one page of 600 x 800 points. *)
Definition one_page : list PageDimensions := [ {| width := 600; height := 800 |} ].

(** The text field of the end-to-end scenario and its record. *)
Definition name_field : Field :=
  {| id := "f_n"; key := "name"; type := text; page_number := 1;
     fontSize := Some medium;
     rect := {| rect_x := 1 # 10; rect_y := 2 # 10;
                rect_w := 3 # 10; rect_h := 5 # 100 |} |}.

Definition name_data : gmap string Js.Value := {[ "name"%string := Js.Str "Ada" ]}.

(** A text field whose key is the name of a property of [Object.prototype]. *)
Definition constructor_field : Field :=
  {| id := "f_k"; key := "constructor"; type := text; page_number := 1;
     fontSize := None;
     rect := {| rect_x := 1 # 10; rect_y := 6 # 10;
                rect_w := 3 # 10; rect_h := 5 # 100 |} |}.

(** A checkbox on page 1, one on page 2, and records for them. *)
Definition box_field : Field :=
  {| id := "f_c"; key := "c"; type := checkbox; page_number := 1;
     fontSize := None;
     rect := {| rect_x := 1 # 2; rect_y := 1 # 2;
                rect_w := 1 # 20; rect_h := 1 # 20 |} |}.



(** A store in which a drag from (100, 100) to (400, 150) is being drawn on
    page 1, and one in which the pointer has hardly moved. *)
Definition drawing_state (endX endY : Q) : TemplateState :=
  {| fields := [narrow_field]; selectedFieldId := None;
     drawingState := {| isDrawing := true; startX := 100; startY := 100;
                        currentX := endX; currentY := endY;
                        pageNumber := 1%Z |};
     pageDimensions := {[ 1%Z := page1000 ]} |}.

(** The fields that [handleApplyToAll] rewrites: those on the page of the
    selected field, the selected one apart. *)
Definition recipient (selected f : Field) : Prop :=
  page_number f = page_number selected /\ Types.id f <> Types.id selected.

#[global] Instance recipient_dec selected f : Decision (recipient selected f).
Proof. unfold recipient. apply _. Defined.

(** What a recipient becomes. *)
Definition resized (property : FieldSidebar.ApplyProperty)
    (selected f : Field) : Field :=
  spreadField f
    (rectUpdate
       (FieldSidebar.spreadRect (rect f)
          (FieldSidebar.applyUpdates property selected))).

(** The step of the [forEach] of [handleApplyToAll], and what it does to one
    field [f] of the store when the field at hand is [g]. *)
Definition forEach_step (property : FieldSidebar.ApplyProperty)
    (selected : Field) (st : TemplateState) (field : Field) : TemplateState :=
  updateField (Types.id field)
    (rectUpdate
       (FieldSidebar.spreadRect (rect field)
          (FieldSidebar.applyUpdates property selected))) st.

Definition touch (property : FieldSidebar.ApplyProperty)
    (selected g f : Field) : Field :=
  if decide (Types.id f = Types.id g)
  then spreadField f
         (rectUpdate
            (FieldSidebar.spreadRect (rect g)
               (FieldSidebar.applyUpdates property selected)))
  else f.

(** The first field of [gs] that carries the id of [f], if any. *)
Definition writer (gs : list Field) (f : Field) : option Field :=
  List.find (fun g => bool_decide (Types.id g = Types.id f)) gs.

Definition rewritten (property : FieldSidebar.ApplyProperty)
    (selected : Field) (gs : list Field) (f : Field) : Field :=
  match writer gs f with
  | Some g => touch property selected g f
  | None => f
  end.

(** Two fields on page 1 and one on page 2; the first is selected and half a
    page wide, the second starts at 80% of the page width. *)
Definition wide_field : Field :=
  {| id := "f_1"; key := "field_1"; type := text; page_number := 1;
     fontSize := None;
     rect := {| rect_x := 0; rect_y := 0; rect_w := 1 # 2; rect_h := 1 # 10 |} |}.

Definition edge_field : Field :=
  {| id := "f_2"; key := "field_2"; type := date; page_number := 1;
     fontSize := Some large;
     rect := {| rect_x := 8 # 10; rect_y := 1 # 2;
                rect_w := 1 # 10; rect_h := 1 # 20 |} |}.

Definition other_page_field : Field :=
  {| id := "f_3"; key := "field_3"; type := checkbox; page_number := 2;
     fontSize := None;
     rect := {| rect_x := 1 # 10; rect_y := 1 # 10;
                rect_w := 1 # 20; rect_h := 1 # 20 |} |}.

Definition three_fields : TemplateState :=
  {| fields := [wide_field; edge_field; other_page_field];
     selectedFieldId := Some "f_1"%string;
     drawingState := initialDrawingState;
     pageDimensions := {[ 1%Z := page1000 ]} |}.

End Examples.


(* ===================================================================== *)
(** * Event sequences and derived updates                                 *)
(* ===================================================================== *)

Module Scenarios.

Import Coordinates Utils TemplateStore Examples.

(** Two partial updates made one: a property of the later update wins. *)
Definition mergeUpdates (u1 u2 : FieldUpdates) : FieldUpdates :=
  {| upd_id := match upd_id u2 with Some v => Some v | None => upd_id u1 end;
     upd_key := match upd_key u2 with Some v => Some v | None => upd_key u1 end;
     upd_type := match upd_type u2 with Some v => Some v | None => upd_type u1 end;
     upd_page_number :=
       match upd_page_number u2 with Some v => Some v | None => upd_page_number u1 end;
     upd_fontSize :=
       match upd_fontSize u2 with Some v => Some v | None => upd_fontSize u1 end;
     upd_rect := match upd_rect u2 with Some v => Some v | None => upd_rect u1 end |}.

(** An update of key and type, and one of type and font size. *)
Definition rename_update : FieldUpdates :=
  {| upd_id := None; upd_key := Some "surname"%string; upd_type := Some date;
     upd_page_number := None; upd_fontSize := None; upd_rect := None |}.

Definition retype_update : FieldUpdates :=
  {| upd_id := None; upd_key := None; upd_type := Some checkbox;
     upd_page_number := None; upd_fontSize := Some large; upd_rect := None |}.

(** A drawing gesture on the overlay of page [pageNumber]: press on empty
    canvas at [press], pointer moves, release.  [newId] is the id that
    [generateId()] returns at the release. *)
Definition drawGesture (pageNumber : Z) (press : Q * Q) (moves : list (Q * Q))
    (newId : string) (state : TemplateState) : TemplateState :=
  FieldOverlay.handleMouseUp pageNumber newId
    (foldl (fun st pos => FieldOverlay.handleMouseMove pageNumber pos st)
           (FieldOverlay.handleMouseDown pageNumber false press state)
           moves).

(** A store with [page1000] for page 1 and two fields. *)
Definition two_fields : TemplateState :=
  {| fields := [wide_field; edge_field]; selectedFieldId := Some "f_2"%string;
     drawingState := initialDrawingState;
     pageDimensions := {[ 1%Z := page1000 ]} |}.

(** A date field next to [name_field] and [box_field], all on page 1. *)
Definition birth_field : Field :=
  {| id := "f_b"; key := "born"; type := date; page_number := 1;
     fontSize := Some small;
     rect := {| rect_x := 1 # 10; rect_y := 4 # 10;
                rect_w := 2 # 10; rect_h := 5 # 100 |} |}.

Definition form_fields : list Field := [name_field; box_field; birth_field].

(** Every field of the store lies inside its page. *)
Definition registry_inside (state : TemplateState) : Prop :=
  Forall (fun f => within_page (rect f)) (fields state).

End Scenarios.
(* ===================================================================== *)
(** * Properties                                                          *)
(* ===================================================================== *)

Import Coordinates Utils TemplateStore Examples.

(** ** Rational arithmetic helpers *)

Lemma Qle_bool_true (a b : Q) : Qle_bool a b = true <-> a <= b.
Proof. apply Qle_bool_iff. Qed.

Lemma Qle_bool_false (a b : Q) : Qle_bool a b = false <-> b < a.
Proof.
  split; intros H.
  - apply Qnot_le_lt. intros Hle. apply Qle_bool_iff in Hle. congruence.
  - destruct (Qle_bool a b) eqn:E; [|reflexivity].
    apply Qle_bool_iff in E. exfalso. apply (Qlt_not_le _ _ H E).
Qed.

Lemma Qdiv_mul_cancel (a d : Q) : 0 < d -> a / d * d == a.
Proof. intros Hd. field. intros Hz. rewrite Hz in Hd. apply (Qlt_irrefl 0 Hd). Qed.


Lemma Qdiv_nonneg (a d : Q) : 0 < d -> 0 <= a -> 0 <= a / d.
Proof.
  intros Hd Ha. unfold Qdiv. apply Qmult_le_0_compat; [exact Ha|].
  apply Qlt_le_weak, Qinv_lt_0_compat, Hd.
Qed.

Lemma Qdiv_neg (a d : Q) : 0 < d -> a < 0 -> a / d < 0.
Proof.
  intros Hd Ha. apply Qlt_shift_div_r; [exact Hd|]. lra.
Qed.

Lemma Qdiv_le_1 (a d : Q) : 0 < d -> a <= d -> a / d <= 1.
Proof.
  intros Hd Ha. apply Qle_shift_div_r; [exact Hd|]. lra.
Qed.

Lemma Qdiv_add (a b d : Q) : 0 < d -> a / d + b / d == (a + b) / d.
Proof. intros Hd. field. intros Hz. rewrite Hz in Hd. apply (Qlt_irrefl 0 Hd). Qed.

(** ** [clamp] *)

Section Clamp.

Variables value min max : Q.

Lemma clamp_le_max : clamp value min max <= max.
Proof. unfold clamp. apply Q.le_min_r. Qed.

Lemma clamp_ge_min : min <= max -> min <= clamp value min max.
Proof.
  intros H. unfold clamp. apply Q.min_glb; [apply Q.le_max_r | exact H].
Qed.

Lemma clamp_inside :
  min <= value -> value <= max -> clamp value min max == value.
Proof.
  intros H1 H2. unfold clamp.
  rewrite (Q.max_l value min H1). apply Q.min_l, H2.
Qed.

(** With the bounds the wrong way round the upper bound is returned, the
    very object that was passed. *)
Lemma clamp_inverted : max < min -> clamp value min max = max.
Proof.
  intros H. unfold clamp, Qmin, GenericMinMax.gmin.
  assert (Hlt : max < Qmax value min).
  { eapply Qlt_le_trans; [exact H | apply Q.le_max_r]. }
  destruct (Qcompare_spec (Qmax value min) max) as [E|E|E].
  - rewrite E in Hlt. exfalso. apply (Qlt_irrefl _ Hlt).
  - exfalso. apply (Qlt_irrefl max). eapply Qlt_trans; eassumption.
  - reflexivity.
Qed.

End Clamp.

(** ** Coordinate transforms *)

Section Transforms.

Variable pageDimensions : PageDimensions.
Hypothesis width_pos : 0 < width pageDimensions.
Hypothesis height_pos : 0 < height pageDimensions.

Lemma percentageToPixels_pixelsToPercentage (pixelRect : PixelRect) :
  PixelRect_equiv
    (percentageToPixels (pixelsToPercentage pixelRect pageDimensions) pageDimensions)
    pixelRect.
Proof.
  unfold PixelRect_equiv, percentageToPixels, pixelsToPercentage; simpl.
  repeat split; now apply Qdiv_mul_cancel.
Qed.


End Transforms.

(** Two equal numbers are within any relative tolerance of each other. *)
Lemma Qeq_within_tolerance (a b eps : Q) :
  0 <= eps -> a == b -> Qabs (a - b) <= eps * Qabs b.
Proof.
  intros Heps Hab.
  assert (E : a - b == 0) by lra.
  rewrite E. simpl Qabs.
  apply Qmult_le_0_compat; [exact Heps | apply Qabs_nonneg].
Qed.

(** C2 -- round-trip identity.  For page dimensions with positive width and
    height, converting a pixel rectangle to percentages and back gives the
    rectangle again: each component is divided and then multiplied by the same
    positive dimension, so it comes back equal, hence within a relative
    tolerance of 1e-6 of the original. *)
Theorem pixel_roundtrip (pixelRect : PixelRect) (pageDimensions : PageDimensions) :
  0 < width pageDimensions ->
  0 < height pageDimensions ->
  let back :=
    percentageToPixels (pixelsToPercentage pixelRect pageDimensions)
                       pageDimensions in
  PixelRect_equiv back pixelRect /\
  Qabs (px_x back - px_x pixelRect) <= (1 # 1000000) * Qabs (px_x pixelRect) /\
  Qabs (px_y back - px_y pixelRect) <= (1 # 1000000) * Qabs (px_y pixelRect) /\
  Qabs (px_w back - px_w pixelRect) <= (1 # 1000000) * Qabs (px_w pixelRect) /\
  Qabs (px_h back - px_h pixelRect) <= (1 # 1000000) * Qabs (px_h pixelRect).
Proof.
  intros Hw Hh back.
  pose proof (percentageToPixels_pixelsToPercentage pageDimensions Hw Hh pixelRect)
    as Heq.
  split; [exact Heq|].
  destruct Heq as (Ex & Ey & Ew & Eh).
  repeat split; apply Qeq_within_tolerance; (lra || assumption).
Qed.

Lemma pixel_roundtrip_witness :
  let pixelRect := {| px_x := 37; px_y := 112 # 3; px_w := 250; px_h := 40 |} in
  let pageDimensions := {| width := 612; height := 792 |} in
  let back :=
    percentageToPixels (pixelsToPercentage pixelRect pageDimensions)
                       pageDimensions in
  PixelRect_equiv back pixelRect /\
  Qabs (px_x back - px_x pixelRect) <= (1 # 1000000) * Qabs (px_x pixelRect) /\
  Qabs (px_y back - px_y pixelRect) <= (1 # 1000000) * Qabs (px_y pixelRect) /\
  Qabs (px_w back - px_w pixelRect) <= (1 # 1000000) * Qabs (px_w pixelRect) /\
  Qabs (px_h back - px_h pixelRect) <= (1 # 1000000) * Qabs (px_h pixelRect).
Proof.
  intros pixelRect pageDimensions.
  apply (pixel_roundtrip pixelRect pageDimensions); reflexivity.
Defined.

(** *** The round trip under rounding

    The same bound when every operation is rounded with a relative error of
    at most [u <= 1e-7] (IEEE double precision has [u = 2^-53] away from
    overflow and underflow): the error of the division and that of the
    multiplication add up to at most [(2u + u^2) |x|]. *)

Section RoundedRoundTrip.

Variable rnd : Q -> Q.
Variable u : Q.
Hypothesis u_nonneg : 0 <= u.
Hypothesis u_small : u <= 1 # 10000000.
Hypothesis rnd_close : forall q, Qabs (rnd q - q) <= u * Qabs q.

Lemma rounded_roundtrip_component (a d : Q) :
  0 < d -> Qabs (rnd (rnd (a / d) * d) - a) <= (1 # 1000000) * Qabs a.
Proof.
  intros Hd.
  pose proof (Qdiv_mul_cancel a d Hd) as Hqd.
  pose proof (rnd_close (a / d)) as H1.
  pose proof (rnd_close (rnd (a / d) * d)) as H2.
  set (q := a / d) in *. set (r1 := rnd q) in *.
  set (m := r1 * d) in *. set (r2 := rnd m) in *.
  assert (Ha : Qabs a == Qabs q * d).
  { rewrite <- Hqd, Qabs_Qmult, (Qabs_pos d) by lra. reflexivity. }
  assert (Hma : Qabs (m - a) <= u * Qabs a).
  { assert (E : m - a == (r1 - q) * d) by (unfold m; rewrite <- Hqd; ring).
    rewrite E, Qabs_Qmult, (Qabs_pos d) by lra. rewrite Ha.
    pose proof (Qabs_nonneg q). nra. }
  assert (Hm : Qabs m <= Qabs a + u * Qabs a).
  { assert (E : m == (m - a) + a) by ring.
    rewrite E at 1. eapply Qle_trans; [apply Qabs_triangle|]. lra. }
  assert (E : r2 - a == (r2 - m) + (m - a)) by ring.
  rewrite E. eapply Qle_trans; [apply Qabs_triangle|].
  pose proof (Qabs_nonneg a). pose proof (Qabs_nonneg m).
  nra.
Qed.

Lemma rounded_conversion_bound (pixelRect : PixelRect) (d : PageDimensions) :
  0 < width d -> 0 < height d ->
  let back :=
    Rounded.percentageToPixels rnd
      (Rounded.pixelsToPercentage rnd pixelRect d) d in
  Qabs (px_x back - px_x pixelRect) <= (1 # 1000000) * Qabs (px_x pixelRect) /\
  Qabs (px_y back - px_y pixelRect) <= (1 # 1000000) * Qabs (px_y pixelRect) /\
  Qabs (px_w back - px_w pixelRect) <= (1 # 1000000) * Qabs (px_w pixelRect) /\
  Qabs (px_h back - px_h pixelRect) <= (1 # 1000000) * Qabs (px_h pixelRect).
Proof.
  intros HW HH. cbn.
  repeat split; now apply rounded_roundtrip_component.
Qed.

End RoundedRoundTrip.

(** The exact arithmetic is one such rounding, with [u = 0]. *)
Lemma rounding_bound_exact_instance :
  let pixelRect := {| px_x := 37; px_y := 112 # 3; px_w := 250; px_h := 40 |} in
  let d := {| width := 612; height := 792 |} in
  let back :=
    Rounded.percentageToPixels (fun q => q)
      (Rounded.pixelsToPercentage (fun q => q) pixelRect d) d in
  Qabs (px_x back - px_x pixelRect) <= (1 # 1000000) * Qabs (px_x pixelRect).
Proof.
  intros pixelRect d.
  assert (Hu0 : 0 <= 0) by apply Qle_refl.
  assert (Hu1 : 0 <= 1 # 10000000) by discriminate.
  assert (Hid : forall q : Q, Qabs (q - q) <= 0 * Qabs q).
  { intros q. assert (E : q - q == 0) by ring.
    rewrite E, Qmult_0_l. apply Qle_refl. }
  assert (HW : 0 < width d) by reflexivity.
  assert (HH : 0 < height d) by reflexivity.
  exact (proj1 (rounded_conversion_bound (fun q => q) 0 Hu0 Hu1 Hid
                  pixelRect d HW HH)).
Qed.

(** Without rounding the rounded conversions are the exact ones. *)
Lemma rounded_exact (pixelRect : PixelRect) (percentRect : FieldRect)
    (d : PageDimensions) :
  Rounded.pixelsToPercentage (fun q => q) pixelRect d
  = pixelsToPercentage pixelRect d /\
  Rounded.percentageToPixels (fun q => q) percentRect d
  = percentageToPixels percentRect d.
Proof. split; reflexivity. Qed.

(** ** [percentageToPDFCoords] *)

(** On a square of side 100 a rectangle twice as wide as high ends at
    [y1 = 25], not at [(y + w) * H = 50]. *)
Lemma percentageToPDFCoords_y1_uses_h :
  ~ pdfcoords_with_y_plus_w
      {| rect_x := 0; rect_y := 0; rect_w := 1 # 2; rect_h := 1 # 4 |}
      {| width := 100; height := 100 |}.
Proof.
  unfold pdfcoords_with_y_plus_w. cbn. intros (_ & _ & _ & H).
  vm_compute in H. discriminate H.
Qed.

(** C3 (amended) -- the document-point transform scales each axis by the page
    dimension and keeps the top-left origin: [x0 = x*W], [x1 = (x+w)*W],
    [y0 = y*H] and [y1 = (y+h)*H]; the point rectangle is [w*W] wide and
    [h*H] high. *)
Theorem percentageToPDFCoords_spec (r : FieldRect) (d : PageDimensions) :
  let c := percentageToPDFCoords r d in
  x0 c = rect_x r * width d /\
  x1 c = (rect_x r + rect_w r) * width d /\
  y0 c = rect_y r * height d /\
  y1 c = (rect_y r + rect_h r) * height d /\
  x1 c - x0 c == rect_w r * width d /\
  y1 c - y0 c == rect_h r * height d.
Proof.
  cbn. repeat split; ring.
Qed.

(** ** Dragging a field ([FieldRectangle]) *)

Import FieldRectangle.

Section Drag.

Variable pageDimensions : PageDimensions.
Variable initialRect : PixelRect.
Variables deltaX deltaY : Q.

Local Abbreviation W := (width pageDimensions).
Local Abbreviation H := (height pageDimensions).

(** The right and bottom edges never pass the page, whatever the mode and
    however far the pointer travels. *)
Lemma newRect_far_edges (mode : DragMode) :
  px_x initialRect + px_w initialRect <= W ->
  px_y initialRect + px_h initialRect <= H ->
  let r := newRect mode initialRect deltaX deltaY pageDimensions in
  px_x r + px_w r <= W /\ px_y r + px_h r <= H.
Proof.
  intros Hx Hy.
  destruct mode; cbn -[clamp];
    repeat match goal with
           | |- context [clamp ?v ?lo ?hi] =>
               lazymatch goal with
               | _ : clamp v lo hi <= hi |- _ => fail
               | _ => pose proof (clamp_le_max v lo hi)
               end
           end; split; lra.
Qed.

(** A move keeps the left and top edges inside a page that is at least as
    large as the rectangle. *)
Lemma newRect_move_near_edges :
  px_w initialRect <= W -> px_h initialRect <= H ->
  let r := newRect move initialRect deltaX deltaY pageDimensions in
  0 <= px_x r /\ 0 <= px_y r.
Proof.
  intros Hw Hh. cbn -[clamp]. split; apply clamp_ge_min; lra.
Qed.

(** A resize keeps the left and top edges inside the page when the fixed
    edge that the moving edge is clamped against is at least [MIN_SIZE]
    pixels away from the page origin: the right edge for the two west
    handles, the bottom edge for the two north handles. *)
Lemma newRect_resize_near_edges (mode : DragMode) :
  0 <= px_x initialRect -> 0 <= px_y initialRect ->
  (mode = resize_sw \/ mode = resize_nw ->
   MIN_SIZE <= px_x initialRect + px_w initialRect) ->
  (mode = resize_ne \/ mode = resize_nw ->
   MIN_SIZE <= px_y initialRect + px_h initialRect) ->
  mode <> move ->
  let r := newRect mode initialRect deltaX deltaY pageDimensions in
  0 <= px_x r /\ 0 <= px_y r.
Proof.
  intros Hx Hy Hw Hh Hm.
  destruct mode; try congruence; cbn -[clamp]; split;
    try assumption; apply clamp_ge_min.
  - specialize (Hw (or_intror eq_refl)). lra.
  - specialize (Hh (or_intror eq_refl)). lra.
  - specialize (Hh (or_introl eq_refl)). lra.
  - specialize (Hw (or_introl eq_refl)). lra.
Qed.

(** With the bounds of the move the wrong way round, that is for a
    rectangle wider (higher) than the page, the new left (top) edge is
    [W - w] ([H - h]), which is negative. *)
Lemma newRect_move_oversized_x :
  W < px_w initialRect ->
  let r := newRect move initialRect deltaX deltaY pageDimensions in
  px_x r = W - px_w initialRect /\ px_x r < 0.
Proof.
  intros Hw. cbn -[clamp].
  rewrite clamp_inverted by lra. split; [reflexivity | lra].
Qed.

Lemma newRect_move_oversized_y :
  H < px_h initialRect ->
  let r := newRect move initialRect deltaX deltaY pageDimensions in
  px_y r = H - px_h initialRect /\ px_y r < 0.
Proof.
  intros Hh. cbn -[clamp].
  rewrite clamp_inverted by lra. split; [reflexivity | lra].
Qed.

End Drag.

(** One pointer move of a drag keeps a stored rectangle inside its page:
    always for a move and for the south-east handle, and for the other
    handles as long as the fixed right (west handles) or bottom (north
    handles) edge is at least [MIN_SIZE] pixels away from the page origin. *)
Lemma drag_keeps_page_bounds (mode : DragMode) (r : FieldRect)
    (d : PageDimensions) (deltaX deltaY : Q) :
  0 < width d -> 0 < height d ->
  within_page r ->
  (mode = resize_sw \/ mode = resize_nw ->
   MIN_SIZE <= (rect_x r + rect_w r) * width d) ->
  (mode = resize_ne \/ mode = resize_nw ->
   MIN_SIZE <= (rect_y r + rect_h r) * height d) ->
  within_page
    (pixelsToPercentage
       (newRect mode (percentageToPixels r d) deltaX deltaY d) d).
Proof.
  intros HW HH (Hx & Hy & Hxw & Hyh) Hfx Hfy.
  set (p := percentageToPixels r d).
  assert (Px : 0 <= px_x p) by (cbn; nra).
  assert (Py : 0 <= px_y p) by (cbn; nra).
  assert (Pxw : px_x p + px_w p <= width d) by (cbn; nra).
  assert (Pyh : px_y p + px_h p <= height d) by (cbn; nra).
  destruct (newRect_far_edges d p deltaX deltaY mode Pxw Pyh) as [Fx Fy].
  assert (Near : 0 <= px_x (newRect mode p deltaX deltaY d) /\
                 0 <= px_y (newRect mode p deltaX deltaY d)).
  { destruct (decide (mode = move)) as [->|Hm].
    - apply newRect_move_near_edges; lra.
    - apply newRect_resize_near_edges; try assumption.
      + intros Hmode. specialize (Hfx Hmode). cbn. lra.
      + intros Hmode. specialize (Hfy Hmode). cbn. lra. }
  destruct Near as [Nx Ny].
  unfold within_page, pixelsToPercentage. cbn [rect_x rect_y rect_w rect_h].
  split; [now apply Qdiv_nonneg|]. split; [now apply Qdiv_nonneg|].
  split; (rewrite Qdiv_add by assumption; now apply Qdiv_le_1).
Qed.

(** What a pointer move writes during a drag: every field carrying the id of
    the dragged one receives the new rectangle, in percentages. *)
Lemma handleMouseMove_fields field pageDimensions e loc state :
  dragMode loc <> none ->
  fields (handleMouseMove field pageDimensions e loc state) =
  (fun f =>
     if decide (Types.id f = Types.id field)
     then spreadField f
            (rectUpdate
               (pixelsToPercentage
                  (newRect (dragMode loc) (initialRect loc)
                     (clientX e - fst (dragStart loc))
                     (clientY e - snd (dragStart loc)) pageDimensions)
                  pageDimensions))
     else f)
  <$> fields state.
Proof.
  intros Hm. unfold handleMouseMove.
  destruct (dragMode loc); try congruence; reflexivity.
Qed.

(** C10 -- [clamp(value, min, max)] is [Math.min(Math.max(value, min), max)];
    when [min > max] it returns [max] whatever the value.  So a move of a
    rectangle wider than the page computes [x = pageWidth - w], a negative
    coordinate, and writes it (divided by the page width, still negative) to
    the dragged field: the move neither fails nor leaves the rectangle as it
    was.  The same holds for the height with [y]. *)
Theorem clamp_inverted_bounds_move
    (value min max : Q) (field : Field) (pageDimensions : PageDimensions)
    (e : MouseEvent) (loc : Local) (state : TemplateState) :
  let newRect :=
    newRect move (initialRect loc)
      (clientX e - fst (dragStart loc)) (clientY e - snd (dragStart loc))
      pageDimensions in
  let state' := handleMouseMove field pageDimensions e loc state in
  clamp value min max = Qmin (Qmax value min) max /\
  (max < min -> clamp value min max = max) /\
  (dragMode loc = move ->
   0 < width pageDimensions ->
   width pageDimensions < px_w (initialRect loc) ->
   field ∈ fields state ->
   let pageWidth := width pageDimensions in
   let w := px_w (initialRect loc) in
   px_x newRect = pageWidth - w /\
   px_x newRect < 0 /\
   exists f',
     f' ∈ fields state' /\
     Types.id f' = Types.id field /\
     rect_x (rect f') = (pageWidth - w) / pageWidth /\
     rect_x (rect f') < 0) /\
  (dragMode loc = move ->
   0 < height pageDimensions ->
   height pageDimensions < px_h (initialRect loc) ->
   field ∈ fields state ->
   let pageHeight := height pageDimensions in
   let h := px_h (initialRect loc) in
   px_y newRect = pageHeight - h /\
   px_y newRect < 0 /\
   exists f',
     f' ∈ fields state' /\
     Types.id f' = Types.id field /\
     rect_y (rect f') = (pageHeight - h) / pageHeight /\
     rect_y (rect f') < 0).
Proof.
  intros r state'.
  split; [reflexivity|].
  split; [apply clamp_inverted|].
  split.
  - intros Hmode Hpos Hwide Hin pageWidth w.
    destruct (newRect_move_oversized_x pageDimensions (initialRect loc)
                (clientX e - fst (dragStart loc))
                (clientY e - snd (dragStart loc)) Hwide) as [Hx Hneg].
    split; [exact Hx|]. split; [exact Hneg|].
    eexists. split.
    + unfold state'.
      rewrite handleMouseMove_fields by (rewrite Hmode; discriminate).
      apply list_elem_of_fmap. exists field. split; [reflexivity | exact Hin].
    + rewrite decide_True by reflexivity. rewrite Hmode. cbn -[newRect].
      split; [reflexivity|]. rewrite Hx. split; [reflexivity|].
      apply Qdiv_neg; [exact Hpos | unfold pageWidth, w; lra].
  - intros Hmode Hpos Hhigh Hin pageHeight h.
    destruct (newRect_move_oversized_y pageDimensions (initialRect loc)
                (clientX e - fst (dragStart loc))
                (clientY e - snd (dragStart loc)) Hhigh) as [Hy Hneg].
    split; [exact Hy|]. split; [exact Hneg|].
    eexists. split.
    + unfold state'.
      rewrite handleMouseMove_fields by (rewrite Hmode; discriminate).
      apply list_elem_of_fmap. exists field. split; [reflexivity | exact Hin].
    + rewrite decide_True by reflexivity. rewrite Hmode. cbn -[newRect].
      split; [reflexivity|]. rewrite Hy. split; [reflexivity|].
      apply Qdiv_neg; [exact Hpos | unfold pageHeight, h; lra].
Qed.

Lemma clamp_inverted_bounds_move_witness :
  clamp 5 0 (-3) = -3 /\
  (exists f',
     f' ∈ fields (handleMouseMove oversized_field page1000 (50, 60)
                    moving_oversized oversized_state) /\
     rect_x (rect f') = (1000 - 1200) / 1000) /\
  (exists f',
     f' ∈ fields (handleMouseMove oversized_field page1000 (50, 60)
                    moving_oversized oversized_state) /\
     rect_y (rect f') = (1000 - 1500) / 1000).
Proof.
  destruct (clamp_inverted_bounds_move 5 0 (-3) oversized_field page1000
              (50, 60) moving_oversized oversized_state)
    as (_ & Hclamp & Hx & Hy).
  split; [exact (Hclamp eq_refl)|]. split.
  - destruct (Hx eq_refl eq_refl eq_refl (list_elem_of_here _ _))
      as (_ & _ & f' & Hin & _ & Hrect & _).
    exists f'. split; assumption.
  - destruct (Hy eq_refl eq_refl eq_refl (list_elem_of_here _ _))
      as (_ & _ & f' & Hin & _ & Hrect & _).
    exists f'. split; assumption.
Defined.

(** C1 -- the clamped-rectangle invariant is broken by a resize from the
    bottom-left handle.  [narrow_field] lies inside its page ([0 <= x],
    [0 <= y], [x + w <= 1], [y + h <= 1]); its right edge is 15 pixels from
    the left edge of the page, less than [MIN_SIZE].  One pointer move of the
    resize computes [newX = clamp(1, 0, 15 - 20) = -5], and the field is
    stored with [x = -0.005 < 0]. *)
Theorem resize_sw_breaks_page_bounds :
  within_page (rect narrow_field) /\
  narrow_field ∈ fields narrow_state /\
  exists f,
    fields (snd narrow_resize) = [f] /\
    Types.id f = Types.id narrow_field /\
    rect_x (rect f) == - (5 # 1000) /\
    rect_w (rect f) == 20 # 1000 /\
    rect_x (rect f) < 0 /\
    within_pageb (rect f) = false /\
    ~ within_page (rect f).
Proof.
  split.
  { unfold within_page. cbn. repeat split; (discriminate || reflexivity). }
  split; [repeat constructor|].
  eexists. split; [vm_compute; reflexivity|].
  cbn [rect rect_x rect_w Types.id].
  split; [reflexivity|].
  split; [reflexivity|].
  split; [reflexivity|].
  split; [reflexivity|].
  split; [reflexivity|].
  unfold within_page. cbn. intros (Hx & _). apply Hx. reflexivity.
Qed.

(** ** Selection and the registry operations *)

Section Selection.

Variable state : TemplateState.

Lemma removeField_selected (id : string) :
  selectedFieldId state = Some id ->
  selectedFieldId (removeField id state) = None.
Proof. intros H. cbn. rewrite decide_True; [reflexivity | exact H]. Qed.

Lemma removeField_not_selected (id : string) :
  selectedFieldId state <> Some id ->
  selectedFieldId (removeField id state) = selectedFieldId state.
Proof. intros H. cbn. rewrite decide_False; [reflexivity | exact H]. Qed.

Hypothesis consistent : selection_consistent state.

Lemma addField_consistent (field : Field) :
  selection_consistent (addField field state).
Proof.
  unfold selection_consistent in *. cbn.
  destruct (selectedFieldId state) as [sid|]; [|exact I].
  destruct consistent as (f & Hin & Hid).
  exists f. split; [|exact Hid]. apply elem_of_app. left. exact Hin.
Qed.

Lemma removeField_consistent (id : string) :
  selection_consistent (removeField id state).
Proof.
  unfold selection_consistent in *. cbn.
  destruct (selectedFieldId state) as [sid|] eqn:Hsel; [|exact I].
  destruct (decide (Some sid = Some id)) as [E|NE]; [exact I|].
  destruct consistent as (f & Hin & Hid).
  exists f. split; [|exact Hid].
  apply list_elem_of_filter. split; [|exact Hin].
  intros E. apply NE. congruence.
Qed.

Lemma updateField_consistent (id : string) (updates : FieldUpdates) :
  upd_id updates = None ->
  selection_consistent (updateField id updates state).
Proof.
  intros Hnone. unfold selection_consistent in *. cbn.
  destruct (selectedFieldId state) as [sid|]; [|exact I].
  destruct consistent as (f & Hin & Hid).
  exists (if decide (Types.id f = id) then spreadField f updates else f).
  split.
  - apply list_elem_of_fmap. exists f. split; [reflexivity | exact Hin].
  - destruct (decide (Types.id f = id)); [|exact Hid].
    cbn. rewrite Hnone. exact Hid.
Qed.

End Selection.

(** After an import that replaces the fields, and after an update that
    renames the selected field, the selection names no field of the
    registry, although it did before. *)
Lemma selection_dangles_after_setFields :
  selection_consistent narrow_state /\
  ~ selection_consistent (runOp (OpSetFields [imported_field]) narrow_state) /\
  ~ selection_consistent (runOp (OpUpdateField "f_a" rename_id) narrow_state).
Proof.
  split.
  { exists narrow_field. split; [repeat constructor | reflexivity]. }
  split; intros (f & Hin & Hid); cbn in Hin;
    apply list_elem_of_singleton in Hin; subst f; discriminate Hid.
Qed.

(** C4 (amended) -- after [addField], after [removeField] and after an
    [updateField] whose update carries no [id], [selectedFieldId] is still
    null or the id of a field of the registry if it was so before;
    [removeField] of the selected id sets the selection to null, and
    [removeField] of any other id leaves the selection as it is. *)
Theorem registry_selection_consistent
    (op : RegistryOp) (id : string) (state : TemplateState) :
  (selection_consistent state -> keeps_ids op ->
   selection_consistent (runOp op state)) /\
  (selectedFieldId state = Some id ->
   selectedFieldId (removeField id state) = None) /\
  (selectedFieldId state <> Some id ->
   selectedFieldId (removeField id state) = selectedFieldId state).
Proof.
  split; [|split].
  - intros Hc Hk. destruct op as [field|id' updates|id'|fields']; cbn [runOp].
    + now apply addField_consistent.
    + now apply updateField_consistent.
    + now apply removeField_consistent.
    + destruct Hk.
  - apply removeField_selected.
  - apply removeField_not_selected.
Qed.

Lemma registry_selection_consistent_witness :
  selection_consistent (runOp (OpRemoveField "f_x") narrow_state) /\
  selectedFieldId (removeField "f_a" narrow_state) = None /\
  selectedFieldId (removeField "f_x" narrow_state) = Some "f_a"%string.
Proof.
  split; [|split].
  - apply (registry_selection_consistent (OpRemoveField "f_x") "f_x" narrow_state).
    + exists narrow_field. split; [repeat constructor | reflexivity].
    + exact I.
  - apply (registry_selection_consistent (OpRemoveField "f_a") "f_a" narrow_state).
    reflexivity.
  - apply (registry_selection_consistent (OpRemoveField "f_x") "f_x" narrow_state).
    discriminate.
Defined.

(** ** Overlay generation ([GenerationModal]) *)

Import GenerationModal.

Section Generation.

Variable Number_toString : Q -> string.
Variable pages : list PageDimensions.
Variable data : gmap string Js.Value.

Local Abbreviation generate := (overlay Number_toString pages data).
Local Abbreviation generate1 := (overlayField Number_toString pages data).




(** First guard: a blank value. *)
Lemma overlayField_blank (field : Field) :
  let value := Js.get data (key field) in
  value = Js.Undefined \/ value = Js.Null \/ value = Js.Str EmptyString ->
  generate1 field = [].
Proof.
  intros value Hv. unfold overlayField. fold value.
  destruct Hv as [-> | [-> | ->]]; reflexivity.
Qed.

Lemma present_not_blank (value : Js.Value) :
  present value ->
  Js.is_undefined value || Js.is_null value || Js.is_empty_string value = false.
Proof.
  intros (Hu & Hn & He).
  destruct value as [| |b|q|s|n|]; try reflexivity; try congruence.
  cbn. apply bool_decide_eq_false. intros ->. apply He. reflexivity.
Qed.

(** Second guard: a page outside the document. *)
Lemma overlayField_no_page (field : Field) :
  (page_number field < 1 \/ Z.of_nat (length pages) < page_number field)%Z ->
  generate1 field = [].
Proof.
  intros Hp. unfold overlayField.
  destruct (_ || _ || _); [reflexivity|].
  destruct ((page_number field - 1 <? 0)%Z) eqn:E1; [reflexivity|].
  destruct ((page_number field - 1 >=? Z.of_nat (length pages))%Z) eqn:E2;
    [reflexivity|].
  exfalso. apply Z.ltb_ge in E1. rewrite Z.geb_leb in E2.
  apply Z.leb_gt in E2. lia.
Qed.

(** Past both guards the page exists and the field is drawn on it. *)
Lemma overlayField_resolved (field : Field) :
  let value := Js.get data (key field) in
  present value ->
  (1 <= page_number field <= Z.of_nat (length pages))%Z ->
  exists pageSize,
    pages !! Z.to_nat (page_number field - 1) = Some pageSize /\
    generate1 field =
      drawField Number_toString field value (page_number field - 1) pageSize.
Proof.
  intros value Hv Hp. unfold overlayField. fold value.
  rewrite (present_not_blank value Hv).
  assert (E1 : (page_number field - 1 <? 0)%Z = false) by (apply Z.ltb_ge; lia).
  assert (E2 : (page_number field - 1 >=? Z.of_nat (length pages))%Z = false).
  { rewrite Z.geb_leb. apply Z.leb_gt. lia. }
  rewrite E1, E2. cbn [orb].
  destruct (pages !! Z.to_nat (page_number field - 1)) as [pageSize|] eqn:El.
  - exists pageSize. split; reflexivity.
  - exfalso. apply lookup_ge_None in El. lia.
Qed.

(** Whatever is drawn for a field is drawn by [drawField] on the page the
    field names. *)
Lemma overlayField_inv (field : Field) (c : DrawText) :
  In c (generate1 field) ->
  let value := Js.get data (key field) in
  exists pageSize,
    pages !! Z.to_nat (page_number field - 1) = Some pageSize /\
    (1 <= page_number field <= Z.of_nat (length pages))%Z /\
    present value /\
    In c (drawField Number_toString field value (page_number field - 1) pageSize).
Proof.
  intros Hin value. unfold overlayField in Hin. fold value in Hin.
  destruct (Js.is_undefined value || Js.is_null value
            || Js.is_empty_string value) eqn:Eb; [destruct Hin|].
  destruct ((page_number field - 1 <? 0)%Z) eqn:E1; [destruct Hin|].
  destruct ((page_number field - 1 >=? Z.of_nat (length pages))%Z) eqn:E2;
    [destruct Hin|].
  cbn [orb] in Hin.
  destruct (pages !! Z.to_nat (page_number field - 1)) as [pageSize|] eqn:El;
    [|destruct Hin].
  exists pageSize. split; [reflexivity|].
  apply Z.ltb_ge in E1. rewrite Z.geb_leb in E2. apply Z.leb_gt in E2.
  split; [lia|]. split; [|exact Hin].
  destruct value as [| |b|q|s|n|]; cbn in Eb; try discriminate;
    repeat split; try discriminate.
  intros [= ->]. discriminate Eb.
Qed.

End Generation.

(** The draw call of a text or date field. *)
Lemma drawField_text Number_toString field value pageIndex pageSize :
  type field <> checkbox ->
  drawField Number_toString field value pageIndex pageSize =
  [ {| pageIndex := pageIndex;
       drawn := Js.String_ Number_toString value;
       x := rect_x (rect field) * width pageSize + 2;
       y := height pageSize - rect_y (rect field) * height pageSize
            - fontSizeOf field - 2;
       size := fontSizeOf field;
       maxWidth := Some (rect_w (rect field) * width pageSize - 4);
       lineHeight := Some (fontSizeOf field * (12 # 10)) |} ].
Proof.
  intros Ht. unfold drawField. destruct (type field); congruence.
Qed.

(** The draw call of a checkbox field. *)
Lemma drawField_checkbox Number_toString field value pageIndex pageSize :
  type field = checkbox ->
  drawField Number_toString field value pageIndex pageSize =
  if checked Number_toString value then
    [ {| pageIndex := pageIndex;
         drawn := "X";
         x := rect_x (rect field) * width pageSize + 2;
         y := height pageSize - rect_y (rect field) * height pageSize
              - fontSizeOf field - 2;
         size := fontSizeOf field;
         maxWidth := None;
         lineHeight := None |} ]
  else [].
Proof.
  intros Ht. unfold drawField. rewrite Ht. reflexivity.
Qed.



(** *** Keys that the record lacks *)

Lemma get_own (data : gmap string Js.Value) (k : string) (v : Js.Value) :
  data !! k = Some v -> Js.get data k = v.
Proof. intros H. unfold Js.get. rewrite H. reflexivity. Qed.

Lemma get_absent (data : gmap string Js.Value) (k : string) :
  data !! k = None -> Js.get data k = default Js.Undefined (Js.Object_prototype k).
Proof. intros H. unfold Js.get. rewrite H. reflexivity. Qed.

(** A key that neither the record nor [Object.prototype] has is skipped;
    a text field whose key the record lacks but [Object.prototype] has is
    drawn, on a page of the document, with the text of what is
    inherited. *)
Lemma absent_key_skipped_unless_inherited
    (Number_toString : Q -> string) (pages : list PageDimensions)
    (data : gmap string Js.Value) (field : Field) :
  data !! key field = None ->
  (Js.Object_prototype (key field) = None ->
   overlayField Number_toString pages data field = []) /\
  (forall v, Js.Object_prototype (key field) = Some v ->
     type field = text ->
     (1 <= page_number field <= Z.of_nat (length pages))%Z ->
     exists c,
       overlayField Number_toString pages data field = [c] /\
       kind c = text_ /\
       drawn c = Js.String_ Number_toString v).
Proof.
  intros Habsent. split.
  - intros Hnone. apply overlayField_blank. left.
    rewrite get_absent, Hnone by exact Habsent. reflexivity.
  - intros v Hv Htext Hpage.
    assert (Hget : Js.get data (key field) = v).
    { rewrite get_absent, Hv by exact Habsent. reflexivity. }
    assert (Hpresent : present v).
    { unfold Js.Object_prototype in Hv.
      repeat (destruct (bool_decide _) in Hv;
              [injection Hv as <-; repeat split; discriminate|]).
      discriminate Hv. }
    destruct (overlayField_resolved Number_toString pages data field)
      as (pageSize & _ & E); [rewrite Hget; exact Hpresent | exact Hpage|].
    rewrite drawField_text in E by (rewrite Htext; discriminate).
    rewrite Hget in E. eexists. split; [exact E|]. split; reflexivity.
Qed.

(** C5 -- the skip rule fails for a key that the record lacks but every
    object inherits.  The text field [constructor_field] has the key
    ["constructor"]; the record is the empty object, so the value at that
    key is absent; the loop reads [data["constructor"]], which is the
    inherited function [Object], passes the blank test and draws one text
    with the source text of that function. *)
Theorem inherited_key_is_drawn :
  let data : gmap string Js.Value := ∅ in
  type constructor_field = text /\
  data !! key constructor_field = None /\
  exists c,
    overlay Js.integer_toString one_page data [constructor_field] = [c] /\
    kind c = text_ /\
    (pageIndex c + 1)%Z = page_number constructor_field /\
    drawn c = "function Object() { [native code] }"%string.
Proof.
  intros data. split; [reflexivity|]. split; [reflexivity|].
  eexists. split; [vm_compute; reflexivity|].
  cbn [kind drawn maxWidth pageIndex]. repeat split.
Qed.

(** ** The checkbox test *)


Section Checkbox.

Variable Number_toString : Q -> string.

(** No number prints as a word that reads "true": [Number::toString] yields
    digits, a sign, a point, an exponent, or one of [NaN] and [Infinity]. *)
Hypothesis Number_toString_numeric :
  forall q, Js.toLowerCase (Number_toString q) <> "true"%string.



End Checkbox.




(** ** Position and bounds of a text *)

Lemma fontSizeOf_lookup (field : Field) :
  fontSizeOf field =
  match fontSize field with
  | Some small => 7
  | Some medium => 9
  | Some large => 12
  | None => 9
  end.
Proof.
  unfold fontSizeOf. destruct (fontSize field) as [[| |]|]; reflexivity.
Qed.

(** C7 -- every text that generation draws for a field with rectangle
    [{x, y, w, h}] on a page of size [W x H] is placed at [x*W + 2] and
    [H - y*H - fontSizePt - 2], with [maxWidth = w*W - 2*2] and
    [lineHeight = fontSizePt * 1.2]; [fontSizePt] is 7, 9 or 12 for small,
    medium and large, and 9 when the field has no font size.  For the
    rectangle [{0.1, 0.2, 0.3, 0.05}] on a page of 600 by 800 with a medium
    font this is [x = 62], [y = 629] and [maxWidth = 176]. *)
Theorem text_instruction_geometry
    (Number_toString : Q -> string) (pages : list PageDimensions)
    (data : gmap string Js.Value) (field : Field)
    (pageSize : PageDimensions) (c : DrawText) :
  In c (overlayField Number_toString pages data field) ->
  kind c = text_ ->
  pages !! Z.to_nat (page_number field - 1) = Some pageSize ->
  let W := width pageSize in
  let H := height pageSize in
  let fontSizePt := fontSizeOf field in
  (x c == rect_x (rect field) * W + 2 /\
   y c == H - rect_y (rect field) * H - fontSizePt - 2 /\
   (exists m, maxWidth c = Some m /\ m == rect_w (rect field) * W - 2 * 2) /\
   (exists l, lineHeight c = Some l /\ l == fontSizePt * (12 # 10)) /\
   size c = fontSizePt) /\
  fontSizePt = match fontSize field with
               | Some small => 7
               | Some medium => 9
               | Some large => 12
               | None => 9
               end /\
  (exists c0 m0,
     overlay Js.integer_toString one_page name_data [name_field] = [c0] /\
     kind c0 = text_ /\ drawn c0 = "Ada"%string /\
     x c0 == 62 /\ y c0 == 629 /\ maxWidth c0 = Some m0 /\ m0 == 176).
Proof.
  intros Hin Hkind Hpage W H fontSizePt.
  destruct (overlayField_inv Number_toString pages data field c Hin)
    as (pageSize' & Hpage' & _ & _ & Hdraw).
  rewrite Hpage in Hpage'. injection Hpage' as <-.
  split; [|split].
  - destruct (decide (type field = checkbox)) as [Hbox|Htext].
    + rewrite drawField_checkbox in Hdraw by exact Hbox.
      destruct (checked _ _); [|destruct Hdraw].
      destruct Hdraw as [<-|[]]. discriminate Hkind.
    + rewrite drawField_text in Hdraw by exact Htext.
      destruct Hdraw as [<-|[]]. cbn.
      split; [reflexivity|]. split; [reflexivity|].
      split; [eexists; split; [reflexivity|]; fold W; ring|].
      split; [eexists; split; reflexivity | reflexivity].
  - apply fontSizeOf_lookup.
  - eexists. eexists. split; [vm_compute; reflexivity|].
    cbn [kind drawn x y maxWidth].
    repeat split; reflexivity.
Qed.

Lemma text_instruction_geometry_witness :
  let c := {| pageIndex := 0; drawn := "Ada";
              x := (1 # 10) * 600 + 2;
              y := 800 - (2 # 10) * 800 - 9 - 2;
              size := 9;
              maxWidth := Some ((3 # 10) * 600 - 4);
              lineHeight := Some (9 * (12 # 10)) |} in
  x c == (1 # 10) * 600 + 2 /\
  y c == 800 - (2 # 10) * 800 - 9 - 2 /\
  (exists m, maxWidth c = Some m /\ m == (3 # 10) * 600 - 2 * 2) /\
  (exists l, lineHeight c = Some l /\ l == 9 * (12 # 10)) /\
  size c = 9.
Proof.
  intros c.
  apply (text_instruction_geometry Js.integer_toString one_page name_data
           name_field {| width := 600; height := 800 |} c).
  - left. reflexivity.
  - reflexivity.
  - reflexivity.
Defined.

(** ** Completing a drawing gesture ([FieldOverlay]) *)

Lemma isValidFieldSize_spec (r : FieldRect) :
  isValidFieldSize r = true <-> (1 # 100) <= rect_w r /\ (1 # 100) <= rect_h r.
Proof.
  unfold isValidFieldSize, MIN_FIELD_SIZE_PERCENT.
  rewrite andb_true_iff, !Qle_bool_true. reflexivity.
Qed.

Lemma isValidFieldSize_false (r : FieldRect) :
  isValidFieldSize r = false <-> rect_w r < (1 # 100) \/ rect_h r < (1 # 100).
Proof.
  unfold isValidFieldSize, MIN_FIELD_SIZE_PERCENT.
  rewrite andb_false_iff, !Qle_bool_false. reflexivity.
Qed.

(** C8 -- on pointer-up of a drawing gesture (a drawing is active on this
    page and the page has dimensions) the rectangle [r] is
    [pixelsToPercentage (normalizeRect start current)].  If [r.w >= 0.01] and
    [r.h >= 0.01] a field of type text with the default key
    [field_<n+1>] and rectangle [r] is appended to the registry and is
    selected; otherwise the field list and the selection are as before.  In
    both cases the drawing state is reset. *)
Theorem drawing_completes
    (pageNumber : Z) (newId : string) (state : TemplateState)
    (dimensions : PageDimensions) :
  isDrawing (drawingState state) = true ->
  Types.pageNumber (drawingState state) = pageNumber ->
  pageDimensions state !! pageNumber = Some dimensions ->
  0 < width dimensions ->
  0 < height dimensions ->
  let d := drawingState state in
  let r := pixelsToPercentage
             (normalizeRect (startX d) (startY d) (currentX d) (currentY d))
             dimensions in
  let state' := FieldOverlay.handleMouseUp pageNumber newId state in
  (isValidFieldSize r = true <->
   (1 # 100) <= rect_w r /\ (1 # 100) <= rect_h r) /\
  (isValidFieldSize r = true ->
   exists newField,
     fields state' = fields state ++ [newField] /\
     Types.id newField = newId /\
     key newField = FieldOverlay.defaultKey (length (fields state)) /\
     type newField = text /\
     page_number newField = pageNumber /\
     rect newField = r /\
     selectedFieldId state' = Some (Types.id newField)) /\
  (isValidFieldSize r = false ->
   fields state' = fields state /\
   selectedFieldId state' = selectedFieldId state) /\
  drawingState state' = initialDrawingState /\
  pageDimensions state' = pageDimensions state.
Proof.
  intros Hdrawing Hpage Hdims _ _ d r state'.
  split; [apply isValidFieldSize_spec|].
  unfold state', FieldOverlay.handleMouseUp.
  rewrite Hdims, Hdrawing, Hpage.
  rewrite bool_decide_eq_true_2 by reflexivity. cbn [negb orb].
  fold d. fold r.
  destruct (isValidFieldSize r) eqn:Hvalid.
  - split; [|split; [discriminate|split; reflexivity]].
    intros _. eexists. cbn. repeat split; reflexivity.
  - split; [discriminate|].
    split; [intros _; split; reflexivity|split; reflexivity].
Qed.

Lemma drawing_completes_witness :
  (exists newField,
     fields (FieldOverlay.handleMouseUp 1 "f_new" (drawing_state 400 150))
     = fields (drawing_state 400 150) ++ [newField] /\
     key newField = "field_2"%string /\
     selectedFieldId (FieldOverlay.handleMouseUp 1 "f_new" (drawing_state 400 150))
     = Some "f_new"%string) /\
  fields (FieldOverlay.handleMouseUp 1 "f_new" (drawing_state 103 150))
  = fields (drawing_state 103 150).
Proof.
  split.
  - destruct (drawing_completes 1 "f_new" (drawing_state 400 150) page1000
                eq_refl eq_refl eq_refl eq_refl eq_refl)
      as (_ & Hadd & _).
    destruct Hadd as (newField & Hf & Hid & Hkey & _ & _ & _ & Hsel);
      [reflexivity|].
    exists newField. split; [exact Hf|]. split; [exact Hkey|].
    rewrite Hsel, Hid. reflexivity.
  - destruct (drawing_completes 1 "f_new" (drawing_state 103 150) page1000
                eq_refl eq_refl eq_refl eq_refl eq_refl)
      as (_ & _ & Hskip & _).
    apply Hskip. reflexivity.
Defined.

(** ** Apply to all fields of the page ([FieldSidebar]) *)

Import FieldSidebar.

(** Ids that are pairwise distinct identify the fields of a list. *)
Lemma unique_id_eq (l : list Field) (f g : Field) :
  NoDup (Types.id <$> l) -> f ∈ l -> g ∈ l -> Types.id f = Types.id g -> f = g.
Proof.
  induction l as [|a l IH]; intros Hnd Hf Hg Hid.
  - inversion Hf.
  - rewrite fmap_cons in Hnd. apply NoDup_cons in Hnd as [Hnotin Hnd].
    apply elem_of_cons in Hf as [-> | Hf]; apply elem_of_cons in Hg as [-> | Hg].
    + reflexivity.
    + exfalso. apply Hnotin. rewrite Hid.
      apply list_elem_of_fmap. exists g. split; [reflexivity | exact Hg].
    + exfalso. apply Hnotin. rewrite <- Hid.
      apply list_elem_of_fmap. exists f. split; [reflexivity | exact Hf].
    + now apply IH.
Qed.

Lemma NoDup_ids_filter (P : Field -> Prop) `{!forall f, Decision (P f)}
    (l : list Field) :
  NoDup (Types.id <$> l) -> NoDup (Types.id <$> filter P l).
Proof.
  induction l as [|a l IH]; intros Hnd; [exact Hnd|].
  rewrite fmap_cons in Hnd. apply NoDup_cons in Hnd as [Hnotin Hnd].
  rewrite filter_cons. destruct (decide (P a)); [|now apply IH].
  rewrite fmap_cons. apply NoDup_cons. split; [|now apply IH].
  intros Hin. apply Hnotin.
  apply list_elem_of_fmap in Hin as (g & Hid & Hg).
  apply list_elem_of_filter in Hg as [_ Hg].
  apply list_elem_of_fmap. exists g. split; assumption.
Qed.

Section ApplyToAll.

Variable property : ApplyProperty.
Variable selected : Field.

Local Abbreviation step := (forEach_step property selected).
Local Abbreviation touch := (Examples.touch property selected).
Local Abbreviation rewritten := (Examples.rewritten property selected).

Lemma touch_id (g f : Field) : Types.id (touch g f) = Types.id f.
Proof. unfold Examples.touch. destruct (decide _); reflexivity. Qed.

Lemma forEach_frame (gs : list Field) (st : TemplateState) :
  fields (foldl step st gs) = foldl (fun fs g => touch g <$> fs) (fields st) gs /\
  selectedFieldId (foldl step st gs) = selectedFieldId st /\
  drawingState (foldl step st gs) = drawingState st /\
  pageDimensions (foldl step st gs) = pageDimensions st.
Proof.
  revert st. induction gs as [|g gs IH]; intros st; cbn [foldl].
  - repeat split.
  - destruct (IH (step st g)) as (Hf & Hs & Hd & Hp).
    rewrite Hf, Hs, Hd, Hp. repeat split.
Qed.

Lemma writer_absent (gs : list Field) (f : Field) :
  Types.id f ∉ (Types.id <$> gs) -> writer gs f = None.
Proof.
  intros Hnotin. unfold writer.
  destruct (List.find _ gs) as [g|] eqn:E; [|reflexivity].
  apply find_some in E as [Hin Hid]. apply bool_decide_eq_true in Hid.
  exfalso. apply Hnotin. rewrite <- Hid.
  apply list_elem_of_fmap. exists g. split; [reflexivity|].
  apply list_elem_of_In, Hin.
Qed.

Lemma rewritten_cons (g : Field) (gs : list Field) (f : Field) :
  Types.id g ∉ (Types.id <$> gs) ->
  rewritten gs (touch g f) = rewritten (g :: gs) f.
Proof.
  intros Hnotin. unfold Examples.rewritten at 2. unfold writer.
  cbn [List.find].
  destruct (decide (Types.id g = Types.id f)) as [E|NE].
  - rewrite bool_decide_eq_true_2 by exact E.
    unfold Examples.rewritten. rewrite writer_absent; [reflexivity|].
    rewrite touch_id, <- E. exact Hnotin.
  - rewrite bool_decide_eq_false_2 by exact NE.
    unfold Examples.touch at 1. rewrite decide_False by congruence.
    reflexivity.
Qed.

Lemma forEach_fields (gs fs : list Field) :
  NoDup (Types.id <$> gs) ->
  foldl (fun fs g => touch g <$> fs) fs gs = rewritten gs <$> fs.
Proof.
  revert fs. induction gs as [|g gs IH]; intros fs Hnd; cbn [foldl].
  - symmetry. etransitivity; [|apply list_fmap_id].
    apply list_fmap_ext. reflexivity.
  - rewrite fmap_cons in Hnd. apply NoDup_cons in Hnd as [Hnotin Hnd].
    rewrite IH by exact Hnd. rewrite <- list_fmap_compose.
    apply list_fmap_ext. intros _ f _.
    apply rewritten_cons, Hnotin.
Qed.

(** Among the recipients of a list with distinct ids, a field is rewritten by
    itself or by nobody. *)
Lemma writer_recipients (l : list Field) (f : Field) :
  NoDup (Types.id <$> l) -> f ∈ l ->
  writer (filter (recipient selected) l) f =
  if decide (recipient selected f) then Some f else None.
Proof.
  intros Hnd Hf. unfold writer.
  destruct (List.find _ _) as [g|] eqn:E.
  - apply find_some in E as [Hin Hid]. apply bool_decide_eq_true in Hid.
    apply list_elem_of_In, list_elem_of_filter in Hin as [Hrec Hg].
    assert (g = f) as -> by (eapply unique_id_eq; eassumption).
    rewrite decide_True by exact Hrec. reflexivity.
  - destruct (decide (recipient selected f)) as [Hrec|]; [|reflexivity].
    exfalso.
    assert (Hin : In f (filter (recipient selected) l)).
    { apply list_elem_of_In, list_elem_of_filter. split; assumption. }
    pose proof (find_none _ _ E f Hin) as Hb. cbn in Hb.
    apply bool_decide_eq_false in Hb. apply Hb. reflexivity.
Qed.

Lemma handleApplyToAll_unfold (state : TemplateState) :
  selectedField state = Some selected ->
  handleApplyToAll property state =
  foldl step state (filter (recipient selected) (fields state)).
Proof. intros Hsel. unfold handleApplyToAll. rewrite Hsel. reflexivity. Qed.

Lemma handleApplyToAll_fields (state : TemplateState) :
  NoDup (Types.id <$> fields state) ->
  selectedField state = Some selected ->
  fields (handleApplyToAll property state) =
  (fun f => if decide (recipient selected f)
            then resized property selected f else f) <$> fields state.
Proof.
  intros Hnd Hsel. rewrite handleApplyToAll_unfold by exact Hsel.
  destruct (forEach_frame (filter (recipient selected) (fields state)) state)
    as (Hf & _).
  rewrite Hf.
  rewrite forEach_fields by (apply NoDup_ids_filter; exact Hnd).
  apply list_fmap_ext. intros i f Hi.
  unfold Examples.rewritten. rewrite writer_recipients;
    [|exact Hnd | eapply list_elem_of_lookup_2; exact Hi].
  destruct (decide (recipient selected f)); [|reflexivity].
  unfold Examples.touch, resized. rewrite decide_True by reflexivity.
  reflexivity.
Qed.

Lemma handleApplyToAll_frame (state : TemplateState) :
  selectedField state = Some selected ->
  selectedFieldId (handleApplyToAll property state) = selectedFieldId state /\
  drawingState (handleApplyToAll property state) = drawingState state /\
  pageDimensions (handleApplyToAll property state) = pageDimensions state.
Proof.
  intros Hsel. rewrite handleApplyToAll_unfold by exact Hsel.
  destruct (forEach_frame (filter (recipient selected) (fields state)) state)
    as (_ & Hs & Hd & Hp).
  repeat split; assumption.
Qed.

End ApplyToAll.

(** A recipient keeps everything but the copied size. *)
Lemma resized_frame (property : ApplyProperty) (selected f : Field) :
  let f' := resized property selected f in
  Types.id f' = Types.id f /\ key f' = key f /\ type f' = type f /\
  page_number f' = page_number f /\ fontSize f' = fontSize f /\
  rect_x (rect f') = rect_x (rect f) /\
  rect_y (rect f') = rect_y (rect f) /\
  rect_w (rect f') = match property with
                     | apply_w | apply_both => rect_w (rect selected)
                     | apply_h => rect_w (rect f)
                     end /\
  rect_h (rect f') = match property with
                     | apply_h | apply_both => rect_h (rect selected)
                     | apply_w => rect_h (rect f)
                     end.
Proof.
  cbn. destruct (fontSize f); destruct property; repeat split.
Qed.

(** C9 -- apply to all.  With a selected field, [handleApplyToAll] with
    ['w'], ['h'] or ['both'] rewrites exactly the other fields of the page of
    the selected field: each of them receives the width and/or the height of
    the selected field and keeps its [x], its [y] and every other property;
    the selected field, the fields of other pages, the selection, the drawing
    state and the page dimensions are unchanged.  Nothing is clamped
    afterwards: in [three_fields], whose rectangles all lie inside the page,
    the recipient at [x = 0.8] ends with [x + w = 1.3].  The ids of the
    registry are pairwise distinct, as the data model has them. *)
Theorem apply_to_all_frame
    (property : ApplyProperty) (state : TemplateState) (selected : Field) :
  NoDup (Types.id <$> fields state) ->
  selectedField state = Some selected ->
  let state' := handleApplyToAll property state in
  fields state' =
    (fun f => if decide (recipient selected f)
              then resized property selected f else f) <$> fields state /\
  (~ recipient selected selected /\
   forall f, page_number f <> page_number selected -> ~ recipient selected f) /\
  (forall f,
     let f' := resized property selected f in
     Types.id f' = Types.id f /\ key f' = key f /\ type f' = type f /\
     page_number f' = page_number f /\ fontSize f' = fontSize f /\
     rect_x (rect f') = rect_x (rect f) /\
     rect_y (rect f') = rect_y (rect f) /\
     rect_w (rect f') = match property with
                        | apply_w | apply_both => rect_w (rect selected)
                        | apply_h => rect_w (rect f)
                        end /\
     rect_h (rect f') = match property with
                        | apply_h | apply_both => rect_h (rect selected)
                        | apply_w => rect_h (rect f)
                        end) /\
  (selectedFieldId state' = selectedFieldId state /\
   drawingState state' = drawingState state /\
   pageDimensions state' = pageDimensions state) /\
  (Forall (fun f => within_page (rect f)) (fields three_fields) /\
   exists f',
     f' ∈ fields (handleApplyToAll apply_w three_fields) /\
     Types.id f' = Types.id edge_field /\
     rect_x (rect f') = rect_x (rect edge_field) /\
     rect_w (rect f') = rect_w (rect wide_field) /\
     1 < rect_x (rect f') + rect_w (rect f')).
Proof.
  intros Hnd Hsel state'.
  split; [now apply handleApplyToAll_fields|].
  split.
  { split; [intros [_ H]; now apply H | intros f Hp [H _]; now apply Hp]. }
  split; [intros f; apply resized_frame|].
  split; [exact (handleApplyToAll_frame property selected state Hsel)|].
  split.
  - repeat constructor; cbn; discriminate.
  - exists (resized apply_w wide_field edge_field).
    split; [|repeat split].
    vm_compute. right. left.
Qed.

Lemma apply_to_all_frame_witness :
  fields (handleApplyToAll apply_both three_fields) =
  [wide_field; resized apply_both wide_field edge_field; other_page_field].
Proof.
  destruct (apply_to_all_frame apply_both three_fields wide_field) as (Hf & _).
  - apply (bool_decide_unpack _). vm_compute. reflexivity.
  - reflexivity.
  - rewrite Hf. reflexivity.
Defined.

(* ===================================================================== *)
(** * Further properties of the same code                                 *)
(* ===================================================================== *)

(** ** [normalizeRect], [isPointInRect], [isValidFieldSize] *)

Lemma Qabs_sub_cases (a b : Q) :
  (a <= b /\ Qabs (b - a) == b - a) \/ (b < a /\ Qabs (b - a) == a - b).
Proof.
  destruct (Qlt_le_dec b a) as [H|H].
  - right. split; [exact H|]. rewrite Qabs_neg by lra. ring.
  - left. split; [exact H|]. rewrite Qabs_pos by lra. reflexivity.
Qed.

Lemma Qmin_cases (a b : Q) :
  (a <= b /\ Qmin a b == a) \/ (b < a /\ Qmin a b == b).
Proof.
  destruct (Q.min_spec a b) as [[H E]|[H E]].
  - left. split; [lra | exact E].
  - destruct (Qlt_le_dec b a) as [Hlt|Hle].
    + right. split; assumption.
    + left. split; [exact Hle|]. rewrite E. lra.
Qed.

Lemma Qmax_cases (a b : Q) :
  (a <= b /\ Qmax a b == b) \/ (b < a /\ Qmax a b == a).
Proof.
  destruct (Q.max_spec a b) as [[H E]|[H E]].
  - left. split; [lra | exact E].
  - destruct (Qlt_le_dec b a) as [Hlt|Hle].
    + right. split; assumption.
    + left. split; [exact Hle|]. rewrite E. lra.
Qed.

(** One axis of [normalizeRect]. *)
Lemma normalize_axis (a b : Q) :
  0 <= Qabs (b - a) /\
  Qmin a b + Qabs (b - a) == Qmax a b /\
  Qmin a b == Qmin b a /\
  Qabs (b - a) == Qabs (a - b).
Proof.
  destruct (Qabs_sub_cases a b) as [[H E]|[H E]];
  destruct (Qabs_sub_cases b a) as [[H' E']|[H' E']];
  destruct (Qmin_cases a b) as [[Hm Em]|[Hm Em]];
  destruct (Qmax_cases a b) as [[HM EM]|[HM EM]];
  destruct (Qmin_cases b a) as [[Hm' Em']|[Hm' Em']];
  rewrite ?E, ?E', ?Em, ?EM, ?Em'; repeat split; lra.
Qed.

Lemma normalizeRect_edges (startX startY endX endY : Q) :
  let r := normalizeRect startX startY endX endY in
  0 <= px_w r /\ 0 <= px_h r /\
  px_x r == Qmin startX endX /\ px_x r + px_w r == Qmax startX endX /\
  px_y r == Qmin startY endY /\ px_y r + px_h r == Qmax startY endY /\
  PixelRect_equiv r (normalizeRect endX endY startX startY).
Proof.
  destruct (normalize_axis startX endX) as (Hw & Exw & Ex & Ew).
  destruct (normalize_axis startY endY) as (Hh & Eyh & Ey & Eh).
  unfold PixelRect_equiv, normalizeRect. cbn [px_x px_y px_w px_h].
  repeat split; (assumption || reflexivity).
Qed.











(** ** [clamp] *)

(** X6 -- with [min <= max], [clamp] returns a value of [[min, max]]: the
    value itself when it lies in the interval, [min] when it is below and
    [max] when it is above. *)
Theorem clamp_range (value min max : Q) :
  min <= max ->
  (min <= clamp value min max /\ clamp value min max <= max) /\
  (min <= value -> value <= max -> clamp value min max == value) /\
  (value <= min -> clamp value min max == min) /\
  (max <= value -> clamp value min max == max).
Proof.
  intros Hmm. split; [split; [now apply clamp_ge_min | apply clamp_le_max]|].
  split; [apply clamp_inside|]. split; intros Hv; unfold clamp.
  - rewrite (Q.max_r value min Hv). apply Q.min_l, Hmm.
  - destruct (Qmax_cases value min) as [[H E]|[H E]]; rewrite E.
    + assert (min == max) by lra. apply Q.min_r. lra.
    + apply Q.min_r, Hv.
Qed.

Lemma clamp_range_witness :
  (20 <= clamp 7 20 300 /\ clamp 7 20 300 <= 300) /\ clamp 7 20 300 == 20.
Proof.
  destruct (clamp_range 7 20 300) as (Hr & _ & Hlow & _); [discriminate|].
  split; [exact Hr|]. apply Hlow. discriminate.
Defined.

(** X7 -- [clamp] is idempotent and monotone in its value, whatever the
    order of the two bounds: clamping a clamped value changes nothing, and
    a larger value never gives a smaller result. *)
Theorem clamp_idempotent_monotone (value value' min max : Q) :
  clamp (clamp value min max) min max == clamp value min max /\
  (value <= value' -> clamp value min max <= clamp value' min max).
Proof.
  split.
  - destruct (Qlt_le_dec max min) as [Hinv|Hord].
    + rewrite !clamp_inverted by exact Hinv. reflexivity.
    + apply clamp_inside; [now apply clamp_ge_min | apply clamp_le_max].
  - intros Hv. unfold clamp.
    apply Q.min_le_compat_r, Q.max_le_compat_r, Hv.
Qed.

Lemma clamp_idempotent_monotone_witness : clamp 3 0 10 <= clamp 25 0 10.
Proof.
  apply (clamp_idempotent_monotone 3 25 0 10). discriminate.
Defined.

(** ** The registry: [updateField], [removeField], [addField] *)

Import Scenarios.

Lemma spreadField_twice (f : Field) (u : FieldUpdates) :
  spreadField (spreadField f u) u = spreadField f u.
Proof.
  unfold spreadField. cbn.
  destruct (upd_id u), (upd_key u), (upd_type u), (upd_page_number u),
    (upd_fontSize u), (upd_rect u); reflexivity.
Qed.

Lemma spreadField_merge (f : Field) (u1 u2 : FieldUpdates) :
  spreadField (spreadField f u1) u2 = spreadField f (mergeUpdates u1 u2).
Proof.
  unfold spreadField, mergeUpdates. cbn.
  destruct (upd_id u2), (upd_key u2), (upd_type u2), (upd_page_number u2),
    (upd_fontSize u2), (upd_rect u2); reflexivity.
Qed.

Lemma TemplateState_eq (s1 s2 : TemplateState) :
  fields s1 = fields s2 ->
  selectedFieldId s1 = selectedFieldId s2 ->
  drawingState s1 = drawingState s2 ->
  pageDimensions s1 = pageDimensions s2 ->
  s1 = s2.
Proof. destruct s1, s2. cbn. congruence. Qed.

(** X8 -- [updateField] with an id that no field carries changes nothing;
    with any id it keeps the number and the order of the fields, leaves
    every field with another id as it is, and applying the same update
    twice is the same as applying it once. *)
Theorem updateField_frame
    (id : string) (updates : FieldUpdates) (state : TemplateState) :
  ((forall f, f ∈ fields state -> Types.id f <> id) ->
   updateField id updates state = state) /\
  length (fields (updateField id updates state)) = length (fields state) /\
  (forall i f, fields state !! i = Some f -> Types.id f <> id ->
               fields (updateField id updates state) !! i = Some f) /\
  (forall i f, fields state !! i = Some f -> Types.id f = id ->
               fields (updateField id updates state) !! i
               = Some (spreadField f updates)) /\
  updateField id updates (updateField id updates state)
  = updateField id updates state.
Proof.
  split; [|split; [|split; [|split]]].
  - intros Habsent. apply TemplateState_eq; try reflexivity. cbn.
    etransitivity; [|apply list_fmap_id].
    apply list_fmap_ext. intros i f Hi.
    rewrite decide_False; [reflexivity|].
    apply Habsent. eapply list_elem_of_lookup_2, Hi.
  - cbn. apply length_fmap.
  - intros i f Hi Hne. cbn. rewrite list_lookup_fmap, Hi. cbn.
    rewrite decide_False by exact Hne. reflexivity.
  - intros i f Hi He. cbn. rewrite list_lookup_fmap, Hi. cbn.
    rewrite decide_True by exact He. reflexivity.
  - apply TemplateState_eq; try reflexivity. cbn.
    rewrite <- list_fmap_compose. apply list_fmap_ext. intros i f _. cbn.
    destruct (decide (Types.id f = id)) as [E|NE].
    + destruct (decide (Types.id (spreadField f updates) = id));
        [apply spreadField_twice | reflexivity].
    + rewrite decide_False by exact NE. reflexivity.
Qed.

Lemma updateField_frame_witness :
  updateField "f_none" rename_update two_fields = two_fields.
Proof.
  destruct (updateField_frame "f_none" rename_update two_fields) as [H _].
  apply H. intros f Hf. cbn in Hf.
  apply elem_of_cons in Hf as [-> | Hf]; [discriminate|].
  apply list_elem_of_singleton in Hf as ->. discriminate.
Defined.

Lemma updateField_merge
    (id : string) (u1 u2 : FieldUpdates) (state : TemplateState) :
  upd_id u1 = None ->
  updateField id u2 (updateField id u1 state)
  = updateField id (mergeUpdates u1 u2) state.
Proof.
  intros Hid. apply TemplateState_eq; try reflexivity. cbn.
  rewrite <- list_fmap_compose. apply list_fmap_ext. intros i f _. cbn.
  destruct (decide (Types.id f = id)) as [E|NE].
  - rewrite decide_True by (cbn; rewrite Hid; exact E).
    apply spreadField_merge.
  - rewrite decide_False by exact NE. reflexivity.
Qed.

(** X9 -- two updates of the same id, the first of which does not change
    the id, amount to one update with the merged properties, a property of
    the second update winning over the same property of the first. *)
Theorem updateField_compose
    (id : string) (u1 u2 : FieldUpdates) (state : TemplateState) :
  upd_id u1 = None ->
  updateField id u2 (updateField id u1 state)
  = updateField id (mergeUpdates u1 u2) state.
Proof. apply updateField_merge. Qed.

Lemma updateField_compose_witness :
  updateField "f_2" retype_update (updateField "f_2" rename_update two_fields)
  = updateField "f_2" (mergeUpdates rename_update retype_update) two_fields.
Proof.
  apply (updateField_compose "f_2" rename_update retype_update two_fields).
  reflexivity.
Defined.

Lemma filter_absent_id (id : string) (l : list Field) :
  (forall f, f ∈ l -> Types.id f <> id) ->
  filter (fun f => Types.id f <> id) l = l.
Proof.
  intros Habsent. induction l as [|a l IH]; [reflexivity|].
  rewrite filter_cons_True by (apply Habsent; left).
  f_equal. apply IH. intros f Hf. apply Habsent. right. exact Hf.
Qed.

(** X10 -- after [removeField] no field carries the removed id; the fields
    with other ids are all kept, in their order; removing an id that no
    field carries leaves the field list as it is; and the page dimensions
    and the drawing state are never touched. *)
Theorem removeField_spec (id : string) (state : TemplateState) :
  (forall f, f ∈ fields (removeField id state) -> Types.id f <> id) /\
  (forall f, f ∈ fields state -> Types.id f <> id ->
             f ∈ fields (removeField id state)) /\
  fields (removeField id state) `sublist_of` fields state /\
  ((forall f, f ∈ fields state -> Types.id f <> id) ->
   fields (removeField id state) = fields state) /\
  fields (removeField id (removeField id state)) = fields (removeField id state) /\
  pageDimensions (removeField id state) = pageDimensions state /\
  drawingState (removeField id state) = drawingState state.
Proof.
  cbn. split; [|split; [|split; [|split; [|split; [|split]]]]].
  - intros f Hf. apply list_elem_of_filter in Hf as [H _]. exact H.
  - intros f Hf Hne. apply list_elem_of_filter. split; assumption.
  - apply sublist_filter.
  - apply filter_absent_id.
  - apply list_filter_filter_l. tauto.
  - reflexivity.
  - reflexivity.
Qed.

Lemma removeField_spec_witness :
  fields (removeField "f_none" two_fields) = fields two_fields.
Proof.
  destruct (removeField_spec "f_none" two_fields) as (_ & _ & _ & H & _).
  apply H. intros f Hf. cbn in Hf.
  apply elem_of_cons in Hf as [-> | Hf]; [discriminate|].
  apply list_elem_of_singleton in Hf as ->. discriminate.
Defined.

(** X11 -- adding a field whose id is not yet in the registry and removing
    it again gives back the field list, and the selection is the one from
    before unless it named that id. *)
Theorem addField_removeField (field : Field) (state : TemplateState) :
  (forall f, f ∈ fields state -> Types.id f <> Types.id field) ->
  fields (removeField (Types.id field) (addField field state)) = fields state /\
  (selectedFieldId state <> Some (Types.id field) ->
   removeField (Types.id field) (addField field state) = state).
Proof.
  intros Hfresh.
  assert (E : fields (removeField (Types.id field) (addField field state))
              = fields state).
  { cbn. rewrite filter_app, filter_cons_False, filter_nil, app_nil_r
      by (intros H; now apply H).
    apply filter_absent_id, Hfresh. }
  split; [exact E|].
  intros Hsel. apply TemplateState_eq; try reflexivity; [exact E|].
  cbn. rewrite decide_False by exact Hsel. reflexivity.
Qed.

Lemma addField_removeField_witness :
  removeField "f_imp" (addField imported_field two_fields) = two_fields.
Proof.
  destruct (addField_removeField imported_field two_fields) as [_ H].
  - intros f Hf. cbn in Hf.
    apply elem_of_cons in Hf as [-> | Hf]; [discriminate|].
    apply list_elem_of_singleton in Hf as ->. discriminate.
  - apply H. discriminate.
Defined.

(** ** Drawing on the overlay ([FieldOverlay]) *)

Lemma Qabs_self_sub (a : Q) : Qabs (a - a) == 0.
Proof. assert (E : a - a == 0) by ring. rewrite E. reflexivity. Qed.

(** One pointer move while a drawing is active on the page. *)
Lemma overlay_move_step (pageNumber : Z) (pos : Q * Q) (state : TemplateState) :
  isDrawing (drawingState state) = true ->
  Types.pageNumber (drawingState state) = pageNumber ->
  FieldOverlay.handleMouseMove pageNumber pos state
  = {| fields := fields state;
       selectedFieldId := selectedFieldId state;
       drawingState :=
         {| isDrawing := true;
            startX := startX (drawingState state);
            startY := startY (drawingState state);
            currentX := fst pos; currentY := snd pos;
            pageNumber := pageNumber |};
       pageDimensions := pageDimensions state |}.
Proof.
  destruct state as [fs sel [dr sx sy cx cy pn] dims]. cbn.
  intros -> ->. unfold FieldOverlay.handleMouseMove. cbn.
  rewrite bool_decide_eq_true_2 by reflexivity. reflexivity.
Qed.

(** What the store looks like after a series of pointer moves. *)
Lemma overlay_moves (pageNumber : Z) (moves : list (Q * Q)) (last : Q * Q)
    (state : TemplateState) :
  isDrawing (drawingState state) = true ->
  Types.pageNumber (drawingState state) = pageNumber ->
  foldl (fun st pos => FieldOverlay.handleMouseMove pageNumber pos st)
        state (moves ++ [last])
  = {| fields := fields state;
       selectedFieldId := selectedFieldId state;
       drawingState :=
         {| isDrawing := true;
            startX := startX (drawingState state);
            startY := startY (drawingState state);
            currentX := fst last; currentY := snd last;
            pageNumber := pageNumber |};
       pageDimensions := pageDimensions state |}.
Proof.
  revert state. induction moves as [|m moves IH]; intros state Hd Hp.
  - cbn. now apply overlay_move_step.
  - cbn [app foldl]. rewrite (overlay_move_step pageNumber m state Hd Hp).
    rewrite IH by reflexivity. reflexivity.
Qed.

Lemma zero_drag_invalid (px py : Q) (d : PageDimensions) :
  isValidFieldSize (pixelsToPercentage (normalizeRect px py px py) d) = false.
Proof.
  apply isValidFieldSize_false. left.
  unfold pixelsToPercentage, normalizeRect. cbn [rect_w px_w].
  rewrite Qabs_self_sub. unfold Qdiv. rewrite Qmult_0_l. reflexivity.
Qed.

(** X12 -- a plain click on empty canvas (press and release without a
    pointer move) never creates a field: the field list is as before, the
    selection is cleared and the drawing state is back to its initial
    value, whether or not the page has dimensions. *)
Theorem click_creates_no_field
    (pageNumber : Z) (press : Q * Q) (newId : string) (state : TemplateState) :
  let state' := drawGesture pageNumber press [] newId state in
  fields state' = fields state /\
  selectedFieldId state' = None /\
  drawingState state' = initialDrawingState /\
  pageDimensions state' = pageDimensions state.
Proof.
  unfold drawGesture, FieldOverlay.handleMouseUp, FieldOverlay.handleMouseDown.
  cbn -[isValidFieldSize normalizeRect pixelsToPercentage].
  destruct (pageDimensions state !! pageNumber) as [d|]; [|repeat split].
  rewrite bool_decide_eq_true_2 by reflexivity.
  cbn -[isValidFieldSize normalizeRect pixelsToPercentage].
  rewrite zero_drag_invalid. repeat split.
Qed.

(** X13 -- only the press and the last pointer position of a drawing
    gesture count: the intermediate pointer moves leave no trace in the
    store that the release produces. *)
Theorem drawGesture_last_move
    (pageNumber : Z) (press last : Q * Q) (moves : list (Q * Q))
    (newId : string) (state : TemplateState) :
  drawGesture pageNumber press (moves ++ [last]) newId state
  = drawGesture pageNumber press [last] newId state.
Proof.
  unfold drawGesture.
  rewrite (overlay_moves pageNumber moves last) by reflexivity.
  rewrite (overlay_moves pageNumber [] last) by reflexivity.
  reflexivity.
Qed.

(** The rectangle of a drag between two points of the page lies inside the
    page. *)
Lemma normalized_within_page (sx sy ex ey : Q) (d : PageDimensions) :
  0 < width d -> 0 < height d ->
  0 <= sx <= width d -> 0 <= ex <= width d ->
  0 <= sy <= height d -> 0 <= ey <= height d ->
  within_page (pixelsToPercentage (normalizeRect sx sy ex ey) d).
Proof.
  intros HW HH [Hsx Hsx'] [Hex Hex'] [Hsy Hsy'] [Hey Hey'].
  pose proof (normalizeRect_edges sx sy ex ey) as (_ & _ & Ex & Exw & Ey & Eyh & _).
  unfold within_page, pixelsToPercentage. cbn [rect_x rect_y rect_w rect_h].
  split; [apply Qdiv_nonneg; [exact HW|]; rewrite Ex; now apply Q.min_glb|].
  split; [apply Qdiv_nonneg; [exact HH|]; rewrite Ey; now apply Q.min_glb|].
  split; rewrite Qdiv_add by assumption; apply Qdiv_le_1; try assumption.
  - rewrite Exw. now apply Q.max_lub.
  - rewrite Eyh. now apply Q.max_lub.
Qed.

(** The store after the release of a drawing that is active on the page. *)
Lemma handleMouseUp_active (pageNumber : Z) (newId : string)
    (state : TemplateState) (d : PageDimensions) :
  isDrawing (drawingState state) = true ->
  Types.pageNumber (drawingState state) = pageNumber ->
  pageDimensions state !! pageNumber = Some d ->
  let r := pixelsToPercentage
             (normalizeRect (startX (drawingState state))
                            (startY (drawingState state))
                            (currentX (drawingState state))
                            (currentY (drawingState state))) d in
  fields (FieldOverlay.handleMouseUp pageNumber newId state) =
  if isValidFieldSize r
  then fields state ++
       [ {| id := newId;
            key := FieldOverlay.defaultKey (length (fields state));
            type := text; page_number := pageNumber;
            fontSize := None; rect := r |} ]
  else fields state.
Proof.
  intros Hd Hp Hdims r. unfold FieldOverlay.handleMouseUp.
  rewrite Hdims, Hd, Hp. rewrite bool_decide_eq_true_2 by reflexivity.
  cbn [negb orb]. fold r. destruct (isValidFieldSize r); reflexivity.
Qed.

(** X14 -- drawing keeps the registry inside the page: when press and
    release lie on the page (between 0 and the page width and height), the
    release of a drawing adds at most one field, whose rectangle satisfies
    [0 <= x], [0 <= y], [x + w <= 1], [y + h <= 1] and is at least 1% wide
    and high; so if every field was inside its page before, every field is
    afterwards. *)
Theorem drawing_keeps_fields_inside
    (pageNumber : Z) (newId : string) (state : TemplateState)
    (d : PageDimensions) :
  isDrawing (drawingState state) = true ->
  Types.pageNumber (drawingState state) = pageNumber ->
  pageDimensions state !! pageNumber = Some d ->
  0 < width d -> 0 < height d ->
  0 <= startX (drawingState state) <= width d ->
  0 <= currentX (drawingState state) <= width d ->
  0 <= startY (drawingState state) <= height d ->
  0 <= currentY (drawingState state) <= height d ->
  let state' := FieldOverlay.handleMouseUp pageNumber newId state in
  (fields state' = fields state \/
   exists newField,
     fields state' = fields state ++ [newField] /\
     within_page (rect newField) /\
     (1 # 100) <= rect_w (rect newField) /\
     (1 # 100) <= rect_h (rect newField)) /\
  (Forall (fun f => within_page (rect f)) (fields state) ->
   Forall (fun f => within_page (rect f)) (fields state')).
Proof.
  intros Hd Hp Hdims HW HH Hsx Hcx Hsy Hcy state'.
  pose proof (handleMouseUp_active pageNumber newId state d Hd Hp Hdims) as E.
  cbv zeta in E. fold state' in E.
  pose proof (normalized_within_page _ _ _ _ d HW HH Hsx Hcx Hsy Hcy) as Hin.
  destruct (isValidFieldSize _) eqn:Hvalid in E.
  - apply isValidFieldSize_spec in Hvalid as [Hw Hh].
    split.
    + right. eexists. split; [exact E|]. cbn [rect].
      split; [exact Hin|]. split; assumption.
    + intros Hall. rewrite E. apply Forall_app. split; [exact Hall|].
      constructor; [exact Hin | constructor].
  - split; [left; exact E | intros Hall; rewrite E; exact Hall].
Qed.

Lemma drawing_keeps_fields_inside_witness :
  Forall (fun f => within_page (rect f))
         (fields (FieldOverlay.handleMouseUp 1 "f_new" (drawing_state 400 150))).
Proof.
  refine (proj2 (drawing_keeps_fields_inside 1 "f_new" (drawing_state 400 150)
                   page1000 eq_refl eq_refl eq_refl eq_refl eq_refl
                   _ _ _ _) _).
  - split; discriminate.
  - split; discriminate.
  - split; discriminate.
  - split; discriminate.
  - repeat constructor; cbn; discriminate.
Defined.

(** X15 -- what cancels a drawing.  Leaving the overlay ends an active
    drawing without touching fields or selection, and a release that finds
    no drawing active, or a drawing that belongs to another page, or a page
    without dimensions, only resets the drawing state; so a release after
    the pointer has left the overlay creates nothing. *)
Theorem drawing_cancelled
    (pageNumber : Z) (newId : string) (state : TemplateState) :
  (isDrawing (drawingState (FieldOverlay.handleMouseLeave state)) = false /\
   fields (FieldOverlay.handleMouseLeave state) = fields state /\
   selectedFieldId (FieldOverlay.handleMouseLeave state) = selectedFieldId state) /\
  (isDrawing (drawingState state) = false \/
   Types.pageNumber (drawingState state) <> pageNumber \/
   pageDimensions state !! pageNumber = None ->
   FieldOverlay.handleMouseUp pageNumber newId state = resetDrawingState state) /\
  fields (FieldOverlay.handleMouseUp pageNumber newId
            (FieldOverlay.handleMouseLeave state)) = fields state.
Proof.
  assert (Hleave : isDrawing (drawingState (FieldOverlay.handleMouseLeave state))
                   = false).
  { unfold FieldOverlay.handleMouseLeave.
    destruct (isDrawing (drawingState state)) eqn:E; [reflexivity | exact E]. }
  assert (Hreset : forall st,
             isDrawing (drawingState st) = false \/
             Types.pageNumber (drawingState st) <> pageNumber \/
             pageDimensions st !! pageNumber = None ->
             FieldOverlay.handleMouseUp pageNumber newId st
             = resetDrawingState st).
  { intros st H. unfold FieldOverlay.handleMouseUp.
    destruct (pageDimensions st !! pageNumber) as [d|]; [|reflexivity].
    destruct H as [H | [H | H]]; [| |discriminate H].
    - rewrite H. reflexivity.
    - rewrite (bool_decide_eq_false_2 _ H), orb_true_r. reflexivity. }
  assert (Hfields : fields (FieldOverlay.handleMouseLeave state) = fields state).
  { unfold FieldOverlay.handleMouseLeave.
    destruct (isDrawing (drawingState state)); reflexivity. }
  split; [split; [exact Hleave | split; [exact Hfields|]]|].
  - unfold FieldOverlay.handleMouseLeave.
    destruct (isDrawing (drawingState state)); reflexivity.
  - split; [apply Hreset|].
    rewrite Hreset by (left; exact Hleave). exact Hfields.
Qed.

Lemma drawing_cancelled_witness :
  FieldOverlay.handleMouseUp 2 "f_new" (drawing_state 400 150)
  = resetDrawingState (drawing_state 400 150).
Proof.
  destruct (drawing_cancelled 2 "f_new" (drawing_state 400 150)) as (_ & H & _).
  apply H. right. left. discriminate.
Defined.

(** X16 -- a field drawn on a page shows on the overlay of that page, after
    the fields that were there, and on no other overlay: for a release that
    creates a field, [pageFields] of the page gains the new field at its
    end and [pageFields] of every other page is unchanged. *)
Theorem drawn_field_on_its_page
    (pageNumber other : Z) (newId : string) (state : TemplateState)
    (d : PageDimensions) :
  isDrawing (drawingState state) = true ->
  Types.pageNumber (drawingState state) = pageNumber ->
  pageDimensions state !! pageNumber = Some d ->
  let r := pixelsToPercentage
             (normalizeRect (startX (drawingState state))
                            (startY (drawingState state))
                            (currentX (drawingState state))
                            (currentY (drawingState state))) d in
  isValidFieldSize r = true ->
  let state' := FieldOverlay.handleMouseUp pageNumber newId state in
  (exists newField,
     Types.id newField = newId /\ rect newField = r /\
     FieldOverlay.pageFields pageNumber state'
     = FieldOverlay.pageFields pageNumber state ++ [newField]) /\
  (other <> pageNumber ->
   FieldOverlay.pageFields other state' = FieldOverlay.pageFields other state).
Proof.
  intros Hd Hp Hdims r Hvalid state'.
  pose proof (handleMouseUp_active pageNumber newId state d Hd Hp Hdims) as E.
  cbv zeta in E. fold r in E. rewrite Hvalid in E. fold state' in E.
  unfold FieldOverlay.pageFields. rewrite E, !filter_app. split.
  - eexists. split; [|split]; [| |rewrite filter_cons_True by reflexivity;
                                  reflexivity]; reflexivity.
  - intros Hne. rewrite filter_cons_False by (cbn; congruence).
    rewrite filter_nil, app_nil_r. reflexivity.
Qed.

Lemma drawn_field_on_its_page_witness :
  FieldOverlay.pageFields 2
    (FieldOverlay.handleMouseUp 1 "f_new" (drawing_state 400 150))
  = FieldOverlay.pageFields 2 (drawing_state 400 150).
Proof.
  refine (proj2 (drawn_field_on_its_page 1 2 "f_new" (drawing_state 400 150)
                   page1000 eq_refl eq_refl eq_refl eq_refl) _).
  discriminate.
Defined.

(** ** Moving and resizing ([FieldRectangle]) *)






Lemma handleMouseMove_twice field d (e1 e2 : MouseEvent) loc state :
  handleMouseMove field d e2 loc (handleMouseMove field d e1 loc state)
  = handleMouseMove field d e2 loc state.
Proof.
  unfold handleMouseMove. destruct (dragMode loc); try reflexivity;
    (rewrite updateField_merge by reflexivity; reflexivity).
Qed.

Lemma handleMouseMove_last field d (moves : list MouseEvent) (last : MouseEvent)
    loc state :
  foldl (fun st e => handleMouseMove field d e loc st) state (moves ++ [last])
  = handleMouseMove field d last loc state.
Proof.
  revert state. induction moves as [|m moves IH]; intros state; [reflexivity|].
  cbn [app foldl]. rewrite IH. apply handleMouseMove_twice.
Qed.

(** X20 -- a drag is decided by its last pointer position: every pointer
    move recomputes the rectangle from the one captured at the press, so
    the store after a drag with many moves is the store after the same
    drag with its last move only. *)
Theorem drag_last_move
    (field : Field) (d : PageDimensions) (mode : DragMode)
    (press last : MouseEvent) (moves : list MouseEvent)
    (loc : Local) (state : TemplateState) :
  drag field d mode press (moves ++ [last]) loc state
  = drag field d mode press [last] loc state.
Proof.
  unfold drag.
  destruct (handleMouseDown field (percentageToPixels (rect field) d) mode
              press loc state) as [loc1 state1].
  rewrite handleMouseMove_last. reflexivity.
Qed.

Lemma updateField_rect_inside (id : string) (r : FieldRect)
    (state : TemplateState) :
  within_page r -> registry_inside state ->
  registry_inside (updateField id (rectUpdate r) state).
Proof.
  unfold registry_inside. intros Hr Hall. cbn.
  apply Forall_fmap. eapply Forall_impl; [exact Hall|].
  intros f Hf. cbn. destruct (decide (Types.id f = id)); [exact Hr | exact Hf].
Qed.

(** X21 -- a whole drag keeps the registry inside the page: if every
    field lies inside its page, the page has positive size and the dragged
    field's fixed right (west handles) or bottom (north handles) edge is at
    least [MIN_SIZE] pixels from the page origin, then after press, any
    number of pointer moves and release every field still satisfies
    [0 <= x], [0 <= y], [x + w <= 1] and [y + h <= 1]. *)
Theorem drag_keeps_registry_inside
    (field : Field) (d : PageDimensions) (mode : DragMode)
    (press : MouseEvent) (moves : list MouseEvent)
    (loc : Local) (state : TemplateState) :
  0 < width d -> 0 < height d ->
  isEditing loc = false ->
  within_page (rect field) ->
  (mode = resize_sw \/ mode = resize_nw ->
   MIN_SIZE <= (rect_x (rect field) + rect_w (rect field)) * width d) ->
  (mode = resize_ne \/ mode = resize_nw ->
   MIN_SIZE <= (rect_y (rect field) + rect_h (rect field)) * height d) ->
  registry_inside state ->
  registry_inside (snd (drag field d mode press moves loc state)).
Proof.
  intros HW HH Hed Hfield Hfx Hfy Hall.
  unfold drag, handleMouseDown. rewrite Hed. cbn [snd].
  set (loc1 := {| dragMode := mode; dragStart := (clientX press, clientY press);
                  initialRect := percentageToPixels (rect field) d;
                  isEditing := false |}).
  assert (Hstep : forall e st, registry_inside st ->
                    registry_inside (handleMouseMove field d e loc1 st)).
  { intros e st Hst. unfold handleMouseMove. cbn [dragMode loc1].
    destruct mode eqn:Hm; [exact Hst| | | | |];
      (apply updateField_rect_inside; [|exact Hst]);
      cbn [initialRect dragStart loc1];
      apply drag_keeps_page_bounds; assumption. }
  assert (Hfold : forall ms st, registry_inside st ->
                    registry_inside
                      (foldl (fun st e => handleMouseMove field d e loc1 st)
                             st ms)).
  { induction ms as [|m ms IH]; intros st Hst; [exact Hst|].
    cbn [foldl]. apply IH, Hstep, Hst. }
  apply Hfold. exact Hall.
Qed.

Lemma drag_keeps_registry_inside_witness :
  registry_inside
    (snd (drag edge_field page1000 resize_nw (800, 500) [(790, 480); (2000, -50)]
            idle two_fields)).
Proof.
  apply (drag_keeps_registry_inside edge_field page1000 resize_nw (800, 500)
           [(790, 480); (2000, -50)] idle two_fields).
  - reflexivity.
  - reflexivity.
  - reflexivity.
  - unfold within_page. cbn. repeat split; discriminate.
  - intros _. discriminate.
  - intros _. discriminate.
  - repeat constructor; cbn; discriminate.
Defined.

(** ** Editing a rectangle in the sidebar ([FieldSidebar.handleRectChange]) *)

Import FieldSidebar.

Lemma clampPercent_range (n : Q) : 0 <= clampPercent n /\ clampPercent n <= 1.
Proof.
  unfold clampPercent.
  pose proof (Q.le_max_l 0 (Qmin 100 n)) as H0.
  assert (H1 : Qmax 0 (Qmin 100 n) <= 100).
  { apply Q.max_lub; [discriminate | apply Q.le_min_l]. }
  split.
  - apply Qle_shift_div_l; [reflexivity | lra].
  - apply Qle_shift_div_r; [reflexivity | lra].
Qed.

Lemma adjustRect_inside (property : RectProperty) (c : Q) (r : FieldRect) :
  0 <= c -> c <= 1 -> within_page r -> within_page (adjustRect property c r).
Proof.
  intros Hc0 Hc1 (Hx & Hy & Hxw & Hyh).
  destruct property; unfold within_page; cbn.
  - destruct (Qle_bool (c + rect_w r) 1) eqn:E;
      [apply Qle_bool_true in E|]; repeat split; lra.
  - destruct (Qle_bool (c + rect_h r) 1) eqn:E;
      [apply Qle_bool_true in E|]; repeat split; lra.
  - destruct (Qle_bool (rect_x r + c) 1) eqn:E;
      [apply Qle_bool_true in E|]; repeat split; lra.
  - destruct (Qle_bool (rect_y r + c) 1) eqn:E;
      [apply Qle_bool_true in E|]; repeat split; lra.
Qed.

Lemma selectedField_elem (state : TemplateState) (selected : Field) :
  selectedField state = Some selected ->
  selected ∈ fields state /\ selectedFieldId state = Some (Types.id selected).
Proof.
  unfold selectedField. destruct (selectedFieldId state) as [sid|]; [|discriminate].
  intros H. apply find_some in H as [Hin Hid].
  apply bool_decide_eq_true in Hid. split; [now apply list_elem_of_In|].
  congruence.
Qed.

(** X22 -- an edit of x, y, width or height in the sidebar keeps the
    registry inside the page: the entered number is clamped to 0..100
    percent, the edited property takes exactly that value, and the partner
    property of the same axis is reduced when position plus size would
    pass 100%; an input that is not a number, or an edit without a
    selected field, changes nothing. *)
Theorem handleRectChange_keeps_inside
    (property : RectProperty) (numValue : option Q) (state : TemplateState) :
  (registry_inside state ->
   registry_inside (handleRectChange property numValue state)) /\
  (numValue = None \/ selectedField state = None ->
   handleRectChange property numValue state = state) /\
  (forall n selected,
     numValue = Some n -> selectedField state = Some selected ->
     Types.id selected <> EmptyString ->
     exists f',
       f' ∈ fields (handleRectChange property numValue state) /\
       Types.id f' = Types.id selected /\
       0 <= clampPercent n /\ clampPercent n <= 1 /\
       clampPercent n = match property with
                        | prop_x => rect_x (rect f')
                        | prop_y => rect_y (rect f')
                        | prop_w => rect_w (rect f')
                        | prop_h => rect_h (rect f')
                        end).
Proof.
  split; [|split].
  - intros Hall. unfold handleRectChange.
    destruct (selectedFieldId state) as [sid|] eqn:Hsid; [|exact Hall].
    destruct (selectedField state) as [selected|] eqn:Hsel; [|exact Hall].
    destruct numValue as [n|]; [|exact Hall].
    destruct (bool_decide (sid = EmptyString)); [exact Hall|].
    apply updateField_rect_inside; [|exact Hall].
    destruct (clampPercent_range n).
    apply adjustRect_inside; try assumption.
    destruct (selectedField_elem state selected Hsel) as [Hin _].
    unfold registry_inside in Hall. rewrite Forall_forall in Hall.
    now apply Hall.
  - intros [-> | Hnone]; unfold handleRectChange.
    + destruct (selectedFieldId state), (selectedField state); reflexivity.
    + rewrite Hnone. destruct (selectedFieldId state); reflexivity.
  - intros n selected -> Hsel Hne.
    destruct (selectedField_elem state selected Hsel) as [Hin Hsid].
    unfold handleRectChange. rewrite Hsid, Hsel.
    rewrite bool_decide_eq_false_2 by exact Hne.
    exists (spreadField selected
              (rectUpdate (adjustRect property (clampPercent n) (rect selected)))).
    split.
    + cbn. apply list_elem_of_fmap. exists selected.
      rewrite decide_True by reflexivity. split; [reflexivity | exact Hin].
    + destruct (clampPercent_range n).
      split; [reflexivity|]. split; [assumption|]. split; [assumption|].
      destruct property; reflexivity.
Qed.

Lemma handleRectChange_keeps_inside_witness :
  registry_inside (handleRectChange prop_w (Some 250) two_fields) /\
  handleRectChange prop_w None two_fields = two_fields.
Proof.
  destruct (handleRectChange_keeps_inside prop_w (Some 250) two_fields)
    as (Hin & _).
  destruct (handleRectChange_keeps_inside prop_w None two_fields)
    as (_ & Hnan & _).
  split.
  - apply Hin. repeat constructor; cbn; discriminate.
  - apply Hnan. left. reflexivity.
Defined.

(** ** Apply to all, again ([FieldSidebar.handleApplyToAll]) *)

Lemma find_fmap_id (g : Field -> Field) (sid : string) (l : list Field) :
  (forall f, Types.id (g f) = Types.id f) ->
  List.find (fun f => bool_decide (Types.id f = sid)) (g <$> l)
  = g <$> List.find (fun f => bool_decide (Types.id f = sid)) l.
Proof.
  intros Hg. induction l as [|a l IH]; [reflexivity|].
  cbn. rewrite Hg. destruct (bool_decide (Types.id a = sid)); [reflexivity|].
  exact IH.
Qed.

Section ApplyTwice.

Variable selected : Field.
Variable state : TemplateState.
Hypothesis distinct_ids : NoDup (Types.id <$> fields state).
Hypothesis is_selected : selectedField state = Some selected.

Local Abbreviation apply1 p f :=
  (if decide (recipient selected f) then resized p selected f else f).

Lemma apply1_id p f : Types.id (apply1 p f) = Types.id f.
Proof. destruct (decide _); reflexivity. Qed.

Lemma apply1_recipient p f :
  recipient selected (apply1 p f) <-> recipient selected f.
Proof. destruct (decide _); [|reflexivity]. unfold recipient. reflexivity. Qed.

Lemma applied_ids p :
  Types.id <$> fields (handleApplyToAll p state) = Types.id <$> fields state.
Proof.
  rewrite (handleApplyToAll_fields p selected state distinct_ids is_selected).
  rewrite <- list_fmap_compose. apply list_fmap_ext.
  intros i f _. apply apply1_id.
Qed.

Lemma applied_selected p :
  selectedField (handleApplyToAll p state) = Some selected.
Proof.
  unfold selectedField.
  destruct (handleApplyToAll_frame p selected state is_selected) as (-> & _).
  rewrite (handleApplyToAll_fields p selected state distinct_ids is_selected).
  unfold selectedField in is_selected.
  destruct (selectedFieldId state) as [sid|]; [|discriminate].
  rewrite (find_fmap_id (fun f => apply1 p f)) by (intros f; apply apply1_id).
  rewrite is_selected. cbn.
  rewrite decide_False; [reflexivity|]. intros [_ H]. now apply H.
Qed.

(** Applying [q] after [p] is a single pass with both rewrites. *)
Lemma applied_twice p q :
  handleApplyToAll q (handleApplyToAll p state)
  = {| fields := (fun f => apply1 q (apply1 p f)) <$> fields state;
       selectedFieldId := selectedFieldId state;
       drawingState := drawingState state;
       pageDimensions := pageDimensions state |}.
Proof.
  pose proof (applied_selected p) as Hsel.
  pose proof (applied_ids p) as Hids.
  assert (Hnd : NoDup (Types.id <$> fields (handleApplyToAll p state)))
    by (rewrite Hids; exact distinct_ids).
  destruct (handleApplyToAll_frame q selected _ Hsel) as (Hs & Hd & Hp).
  destruct (handleApplyToAll_frame p selected state is_selected)
    as (Hs' & Hd' & Hp').
  apply TemplateState_eq; cbn [fields selectedFieldId drawingState pageDimensions];
    [|congruence..].
  rewrite (handleApplyToAll_fields q selected _ Hnd Hsel).
  rewrite (handleApplyToAll_fields p selected state distinct_ids is_selected).
  rewrite <- list_fmap_compose. reflexivity.
Qed.

Lemma applied_once p :
  handleApplyToAll p state
  = {| fields := (fun f => apply1 p f) <$> fields state;
       selectedFieldId := selectedFieldId state;
       drawingState := drawingState state;
       pageDimensions := pageDimensions state |}.
Proof.
  destruct (handleApplyToAll_frame p selected state is_selected)
    as (Hs & Hd & Hp).
  apply TemplateState_eq; cbn [fields selectedFieldId drawingState pageDimensions];
    try assumption.
  apply (handleApplyToAll_fields p selected state distinct_ids is_selected).
Qed.

Lemma apply1_twice p q r :
  (forall f, resized q selected (resized p selected f) = resized r selected f) ->
  forall f, apply1 q (apply1 p f) = apply1 r f.
Proof.
  intros Hres f. destruct (decide (recipient selected f)) as [Hr|Hn].
  - rewrite decide_True by exact Hr. apply Hres.
  - rewrite decide_False by exact Hn. reflexivity.
Qed.

End ApplyTwice.

(** X23 -- with distinct ids and a selected field, apply-to-all is
    idempotent: pressing the same button a second time changes nothing. *)
Theorem handleApplyToAll_idempotent
    (property : ApplyProperty) (state : TemplateState) (selected : Field) :
  NoDup (Types.id <$> fields state) ->
  selectedField state = Some selected ->
  handleApplyToAll property (handleApplyToAll property state)
  = handleApplyToAll property state.
Proof.
  intros Hnd Hsel.
  rewrite (applied_twice selected state Hnd Hsel).
  rewrite (applied_once selected state Hnd Hsel property).
  f_equal. apply list_fmap_ext. intros i f _.
  apply apply1_twice. intros g. unfold resized. cbn.
  destruct (fontSize g), property; reflexivity.
Qed.

Lemma handleApplyToAll_idempotent_witness :
  handleApplyToAll apply_w (handleApplyToAll apply_w three_fields)
  = handleApplyToAll apply_w three_fields.
Proof.
  apply (handleApplyToAll_idempotent apply_w three_fields wide_field).
  - apply (bool_decide_unpack _). vm_compute. reflexivity.
  - reflexivity.
Defined.

(** X24 -- with distinct ids and a selected field, "Both" is "Width"
    followed by "Height", and the two single applications commute. *)
Theorem handleApplyToAll_both
    (state : TemplateState) (selected : Field) :
  NoDup (Types.id <$> fields state) ->
  selectedField state = Some selected ->
  handleApplyToAll apply_h (handleApplyToAll apply_w state)
  = handleApplyToAll apply_both state /\
  handleApplyToAll apply_w (handleApplyToAll apply_h state)
  = handleApplyToAll apply_both state.
Proof.
  intros Hnd Hsel.
  rewrite !(applied_twice selected state Hnd Hsel).
  rewrite (applied_once selected state Hnd Hsel apply_both).
  split; f_equal; apply list_fmap_ext; intros i f _;
    apply apply1_twice; intros g; unfold resized; cbn;
    destruct (fontSize g); reflexivity.
Qed.

Lemma handleApplyToAll_both_witness :
  handleApplyToAll apply_h (handleApplyToAll apply_w three_fields)
  = handleApplyToAll apply_both three_fields.
Proof.
  apply (handleApplyToAll_both three_fields wide_field).
  - apply (bool_decide_unpack _). vm_compute. reflexivity.
  - reflexivity.
Defined.

(** ** The field list of the sidebar ([fieldsByPage], [pageNumbers]) *)

Lemma fieldsByPage_fold (acc : gmap Z (list Field)) (l : list Field) (p : Z) :
  foldl (fun acc field =>
           let page := page_number field in
           <[page := default [] (acc !! page) ++ [field]]> acc) acc l !! p
  = match filter (fun f => page_number f = p) l with
    | [] => acc !! p
    | g => Some (default [] (acc !! p) ++ g)
    end.
Proof.
  revert acc. induction l as [|a l IH]; intros acc; [reflexivity|].
  cbn [foldl]. rewrite IH. rewrite filter_cons.
  destruct (decide (page_number a = p)) as [E|NE].
  - rewrite E, lookup_insert_eq. cbn [default from_option Datatypes.id].
    destruct (filter _ l) as [|b g]; [reflexivity|].
    rewrite <- app_assoc. reflexivity.
  - rewrite lookup_insert_ne by exact NE. reflexivity.
Qed.

Lemma fieldsByPage_lookup (l : list Field) (p : Z) :
  default [] (fieldsByPage l !! p) = filter (fun f => page_number f = p) l.
Proof.
  unfold fieldsByPage. rewrite fieldsByPage_fold, lookup_empty.
  destruct (filter _ l); reflexivity.
Qed.

Lemma fieldsByPage_is_Some (l : list Field) (p : Z) :
  is_Some (fieldsByPage l !! p) <-> exists f, f ∈ l /\ page_number f = p.
Proof.
  unfold fieldsByPage. rewrite fieldsByPage_fold, lookup_empty.
  destruct (filter (fun f => page_number f = p) l) as [|b g] eqn:E.
  - split; [intros [x Hx]; discriminate Hx|].
    intros (f & Hf & Hp).
    assert (Hin : f ∈ filter (fun f => page_number f = p) l)
      by (apply list_elem_of_filter; split; assumption).
    rewrite E in Hin. inversion Hin.
  - split; [|intros _; eexists; reflexivity].
    intros _. exists b.
    assert (Hin : b ∈ filter (fun f => page_number f = p) l)
      by (rewrite E; left).
    apply list_elem_of_filter in Hin as [Hp Hb]. split; assumption.
Qed.

Lemma pageNumbers_elem (l : list Field) (p : Z) :
  p ∈ pageNumbers l <-> exists f, f ∈ l /\ page_number f = p.
Proof.
  unfold pageNumbers. rewrite merge_sort_Permutation.
  rewrite <- fieldsByPage_is_Some. split.
  - intros Hin. apply list_elem_of_fmap in Hin as ([k g] & -> & Hkg).
    apply elem_of_map_to_list in Hkg. cbn. eexists. exact Hkg.
  - intros [g Hg]. apply list_elem_of_fmap. exists (p, g).
    split; [reflexivity|]. apply elem_of_map_to_list. exact Hg.
Qed.

Lemma flat_map_ext_elem {A B} (f g : A -> list B) (l : list A) :
  (forall a, a ∈ l -> f a = g a) -> flat_map f l = flat_map g l.
Proof.
  induction l as [|a l IH]; intros H; [reflexivity|]. cbn.
  rewrite (H a) by left. f_equal. apply IH. intros b Hb. apply H. right. exact Hb.
Qed.

(** Collecting the groups of pairwise distinct pages that cover every field
    gives each field exactly once. *)
Lemma groups_Permutation (l : list Field) (ps : list Z) :
  NoDup ps -> (forall f, f ∈ l -> page_number f ∈ ps) ->
  flat_map (fun p => filter (fun f => page_number f = p) l) ps ≡ₚ l.
Proof.
  intros Hnd. induction l as [|a l IH]; intros Hcover.
  - induction ps as [|p ps IHps]; [reflexivity|]. cbn.
    apply IHps; [now apply NoDup_cons in Hnd as [_ ?]|].
    intros f Hf. inversion Hf.
  - assert (Ha : page_number a ∈ ps) by (apply Hcover; left).
    apply list_elem_of_split in Ha as (ps1 & ps2 & Eps).
    assert (IH' : flat_map (fun p => filter (fun f => page_number f = p) l) ps
                  ≡ₚ l).
    { apply IH. intros f Hf. apply Hcover. right. exact Hf. }
    rewrite Eps in Hnd, IH' |- *.
    apply NoDup_app in Hnd as (_ & Hdisj & Hnd2).
    apply NoDup_cons in Hnd2 as [Hnot2 _].
    rewrite flat_map_app in IH' |- *. cbn [flat_map] in IH' |- *.
    rewrite (flat_map_ext_elem
               (fun p => filter (fun f => page_number f = p) (a :: l))
               (fun p => filter (fun f => page_number f = p) l) ps1).
    2:{ intros p Hp. rewrite filter_cons_False; [reflexivity|].
        intros E. apply (Hdisj p Hp). rewrite <- E. left. }
    rewrite (flat_map_ext_elem
               (fun p => filter (fun f => page_number f = p) (a :: l))
               (fun p => filter (fun f => page_number f = p) l) ps2).
    2:{ intros p Hp. rewrite filter_cons_False; [reflexivity|].
        intros E. apply Hnot2. rewrite E. exact Hp. }
    rewrite filter_cons_True by reflexivity.
    rewrite <- IH' at 2. cbn [app].
    symmetry. apply Permutation_middle.
Qed.

(** X25 -- the sidebar lists every field exactly once, grouped by page:
    the group of a page is the list of the fields of that page in registry
    order (the very list the overlay of that page shows), the page numbers
    are exactly the pages that have a field, each once and in ascending
    order, and the rendered list is a rearrangement of the registry. *)
Theorem sidebar_listing (state : TemplateState) :
  let l := fields state in
  (forall p, default [] (fieldsByPage l !! p)
             = filter (fun f => page_number f = p) l) /\
  (forall p, default [] (fieldsByPage l !! p) = FieldOverlay.pageFields p state) /\
  (forall p, p ∈ pageNumbers l <-> exists f, f ∈ l /\ page_number f = p) /\
  StronglySorted Z.le (pageNumbers l) /\
  NoDup (pageNumbers l) /\
  listing l = flat_map (fun p => filter (fun f => page_number f = p) l)
                       (pageNumbers l) /\
  listing l ≡ₚ l.
Proof.
  intros l.
  assert (Hnd : NoDup (pageNumbers l)).
  { unfold pageNumbers. rewrite merge_sort_Permutation.
    apply NoDup_fst_map_to_list. }
  assert (Hlist : listing l
                  = flat_map (fun p => filter (fun f => page_number f = p) l)
                             (pageNumbers l)).
  { unfold listing. apply flat_map_ext_elem. intros p _.
    apply fieldsByPage_lookup. }
  split; [apply fieldsByPage_lookup|].
  split; [intros p; apply fieldsByPage_lookup|].
  split; [apply pageNumbers_elem|].
  split; [apply StronglySorted_merge_sort; apply _|].
  split; [exact Hnd|]. split; [exact Hlist|].
  rewrite Hlist. apply groups_Permutation; [exact Hnd|].
  intros f Hf. apply pageNumbers_elem. exists f. split; [exact Hf | reflexivity].
Qed.

(** ** More on overlay generation ([GenerationModal]) *)

Lemma overlayField_length Number_toString pages data field :
  (length (overlayField Number_toString pages data field) <= 1)%nat.
Proof.
  unfold overlayField.
  destruct (_ || _ || _); [cbn; lia|].
  destruct (_ || _); [cbn; lia|].
  destruct (pages !! _) as [pageSize|]; [|cbn; lia].
  unfold drawField. destruct (type field); cbn; try lia.
  destruct (checked _ _); cbn; lia.
Qed.

Lemma drawField_In Number_toString field value idx pageSize c :
  In c (drawField Number_toString field value idx pageSize) ->
  pageIndex c = idx /\ size c = fontSizeOf field /\
  x c = rect_x (rect field) * width pageSize + 2 /\
  y c = height pageSize - rect_y (rect field) * height pageSize
        - fontSizeOf field - 2.
Proof.
  unfold drawField. destruct (type field); cbn;
    try (intros [<-|[]]; repeat split; reflexivity).
  destruct (checked _ _); cbn; [|intros []].
  intros [<-|[]]. repeat split; reflexivity.
Qed.

(** X26 -- generation only draws on pages of the document and at most once
    per field: every draw call goes to a page index between 0 and the
    number of pages, comes from a field of the list on that page whose
    value is present, and carries that field's font size and position;
    and there are never more calls than fields. *)
Theorem overlay_calls_on_document
    (Number_toString : Q -> string) (pages : list PageDimensions)
    (data : gmap string Js.Value) (fields : list Field) :
  (forall c, In c (overlay Number_toString pages data fields) ->
     (0 <= pageIndex c < Z.of_nat (length pages))%Z /\
     exists f pageSize,
       f ∈ fields /\ pageIndex c = (page_number f - 1)%Z /\
       pages !! Z.to_nat (pageIndex c) = Some pageSize /\
       present (Js.get data (key f)) /\
       size c = fontSizeOf f /\
       x c = rect_x (rect f) * width pageSize + 2 /\
       y c = height pageSize - rect_y (rect f) * height pageSize
             - fontSizeOf f - 2) /\
  (length (overlay Number_toString pages data fields) <= length fields)%nat.
Proof.
  split.
  - intros c Hc. unfold overlay in Hc. apply in_flat_map in Hc as (f & Hf & Hc).
    destruct (overlayField_inv Number_toString pages data f c Hc)
      as (pageSize & Hpage & Hrange & Hpresent & Hdraw).
    apply drawField_In in Hdraw as (Hidx & Hsize & Hx & Hy).
    split; [lia|]. exists f, pageSize.
    split; [now apply list_elem_of_In|]. split; [exact Hidx|].
    split; [rewrite Hidx; exact Hpage|]. split; [exact Hpresent|].
    repeat split; assumption.
  - unfold overlay. induction fields as [|f l IH]; [cbn; lia|].
    cbn [flat_map]. rewrite length_app. cbn [length].
    pose proof (overlayField_length Number_toString pages data f). lia.
Qed.

Lemma overlay_ext Number_toString pages (data data' : gmap string Js.Value)
    (fields : list Field) :
  (forall f, f ∈ fields -> Js.get data' (key f) = Js.get data (key f)) ->
  overlay Number_toString pages data' fields
  = overlay Number_toString pages data fields.
Proof.
  intros H. unfold overlay. apply flat_map_ext_elem.
  intros f Hf. unfold overlayField. rewrite (H f Hf). reflexivity.
Qed.

(** X27 -- keys of the record that no field uses are ignored: adding or
    removing such a key leaves the draw calls unchanged.  And for a key
    that [Object.prototype] does not have, an entry that is [null] or the
    empty string is the same to generation as no entry at all. *)
Theorem overlay_ignores_unused_and_blank
    (Number_toString : Q -> string) (pages : list PageDimensions)
    (data : gmap string Js.Value) (fields : list Field)
    (k : string) (v : Js.Value) :
  let generate d := overlay Number_toString pages d fields in
  ((forall f, f ∈ fields -> key f <> k) ->
   generate (<[k := v]> data) = generate data /\
   generate (delete k data) = generate data) /\
  (Js.Object_prototype k = None ->
   generate (<[k := Js.Null]> data) = generate (delete k data) /\
   generate (<[k := Js.Str EmptyString]> data) = generate (delete k data)).
Proof.
  intros generate. unfold generate. split; [intros Hunused; split|].
  - apply overlay_ext. intros f Hf. unfold Js.get.
    rewrite lookup_insert_ne; [reflexivity|]. intros E. now apply (Hunused f Hf).
  - apply overlay_ext. intros f Hf. unfold Js.get.
    rewrite lookup_delete_ne; [reflexivity|]. intros E. now apply (Hunused f Hf).
  - intros Hproto. split; unfold overlay; apply flat_map_ext_elem; intros f _;
      unfold overlayField, Js.get;
      (destruct (decide (k = key f)) as [<-|NE];
       [rewrite lookup_insert_eq, lookup_delete_eq, Hproto; reflexivity
       |rewrite lookup_insert_ne, lookup_delete_ne by exact NE; reflexivity]).
Qed.

Lemma overlay_ignores_unused_and_blank_witness :
  overlay Js.integer_toString one_page
    (<["comment"%string := Js.Str "n/a"]> name_data) [name_field]
  = overlay Js.integer_toString one_page name_data [name_field].
Proof.
  destruct (overlay_ignores_unused_and_blank Js.integer_toString one_page
              name_data [name_field] "comment" (Js.Str "n/a")) as [H _].
  apply H. intros f Hf. apply list_elem_of_singleton in Hf as ->. discriminate.
Defined.

(** ** The sample record ([generateSampleJson]) *)

Lemma sample_fold_other (today : string) (l : list Field)
    (acc : gmap string Js.Value) (k : string) :
  k ∉ (key <$> l) ->
  foldl (fun sample f => Js.set (key f) (sampleValue today f) sample) acc l !! k
  = acc !! k.
Proof.
  revert acc. induction l as [|a l IH]; intros acc Hk; [reflexivity|].
  cbn [foldl]. rewrite fmap_cons in Hk. apply not_elem_of_cons in Hk as [Hne Hk].
  rewrite IH by exact Hk. unfold Js.set.
  destruct (bool_decide _); [reflexivity|].
  apply lookup_insert_ne. congruence.
Qed.

Lemma sample_lookup (today : string) (l : list Field) (f : Field) :
  NoDup (key <$> l) -> f ∈ l -> key f <> "__proto__"%string ->
  generateSampleJson today l !! key f = Some (sampleValue today f).
Proof.
  unfold generateSampleJson. generalize (∅ : gmap string Js.Value).
  induction l as [|a l IH]; intros acc Hnd Hf Hkey; [inversion Hf|].
  rewrite fmap_cons in Hnd. apply NoDup_cons in Hnd as [Hnotin Hnd].
  cbn [foldl]. apply elem_of_cons in Hf as [-> | Hf].
  - rewrite sample_fold_other by exact Hnotin. unfold Js.set.
    rewrite bool_decide_eq_false_2 by exact Hkey. apply lookup_insert_eq.
  - now apply IH.
Qed.

Lemma sampleValue_present (today : string) (f : Field) :
  today <> EmptyString -> present (sampleValue today f).
Proof.
  intros Ht. unfold sampleValue, present.
  destruct (type f); repeat split; try discriminate.
  intros [= E]. now apply Ht.
Qed.

Lemma flat_map_singletons {A B} (g : A -> list B) (l : list A) :
  (forall a, a ∈ l -> exists b, g a = [b]) ->
  length (flat_map g l) = length l.
Proof.
  induction l as [|a l IH]; intros H; [reflexivity|].
  cbn [flat_map]. rewrite length_app.
  destruct (H a) as [b ->]; [left|]. cbn. f_equal.
  apply IH. intros a' Ha'. apply H. right. exact Ha'.
Qed.

(** X29 -- the sample record fills the whole form: for fields with
    pairwise distinct keys, none of them ["__proto__"] (an assignment to
    which the sample object ignores), that all lie on pages of the
    document, and a non-empty date string, previewing the generated sample
    draws exactly one call for every field, a mark for each checkbox and a
    text for every other field, on the page of the field. *)
Theorem sample_fills_every_field
    (Number_toString : Q -> string) (today : string)
    (pages : list PageDimensions) (fields : list Field) :
  NoDup (key <$> fields) ->
  "__proto__"%string ∉ (key <$> fields) ->
  today <> EmptyString ->
  (forall f, f ∈ fields ->
             (1 <= page_number f <= Z.of_nat (length pages))%Z) ->
  let sample := generateSampleJson today fields in
  (forall f, f ∈ fields ->
     exists c,
       overlayField Number_toString pages sample f = [c] /\
       kind c = (if decide (type f = checkbox) then mark else text_) /\
       (pageIndex c + 1)%Z = page_number f) /\
  length (overlay Number_toString pages sample fields) = length fields.
Proof.
  intros Hnd Hproto Htoday Hpages sample.
  assert (Hone : forall f, f ∈ fields ->
            exists c,
              overlayField Number_toString pages sample f = [c] /\
              kind c = (if decide (type f = checkbox) then mark else text_) /\
              (pageIndex c + 1)%Z = page_number f).
  { intros f Hf.
    assert (Hval : Js.get sample (key f) = sampleValue today f).
    { unfold Js.get, sample. rewrite (sample_lookup today fields f Hnd Hf).
      - reflexivity.
      - intros E. apply Hproto. rewrite <- E.
        apply list_elem_of_fmap. exists f. split; [reflexivity | exact Hf]. }
    destruct (overlayField_resolved Number_toString pages sample f)
      as (pageSize & _ & E).
    - rewrite Hval. now apply sampleValue_present.
    - now apply Hpages.
    - rewrite Hval in E. rewrite E.
      destruct (decide (type f = checkbox)) as [Hbox|Hother].
      + rewrite drawField_checkbox by exact Hbox.
        unfold sampleValue. rewrite Hbox. unfold checked. cbn [Js.is_true].
        rewrite orb_true_r. eexists. split; [reflexivity|]. cbn.
        split; [reflexivity | lia].
      + rewrite drawField_text by exact Hother.
        eexists. split; [reflexivity|]. cbn. split; [reflexivity | lia]. }
  split; [exact Hone|].
  unfold overlay. apply flat_map_singletons.
  intros f Hf. destruct (Hone f Hf) as (c & E & _). exists c. exact E.
Qed.

Lemma sample_fills_every_field_witness :
  length (overlay Js.integer_toString one_page
            (generateSampleJson "2024-05-01" form_fields) form_fields)
  = length form_fields.
Proof.
  apply (sample_fills_every_field Js.integer_toString "2024-05-01" one_page
           form_fields).
  - apply (bool_decide_unpack _). vm_compute. reflexivity.
  - apply (bool_decide_unpack _). vm_compute. reflexivity.
  - discriminate.
  - intros f Hf. unfold form_fields in Hf.
    repeat (apply elem_of_cons in Hf as [-> | Hf]; [cbn; lia|]).
    inversion Hf.
Defined.

(** ** Checking a record against the template ([GeneratePage.validateJson]) *)

Import GeneratePage.

(** X30 -- for an input that parses to an object, [validateJson] reports
    no error exactly when every key of the record is the key of some field,
    and otherwise a single "unknown keys" message; a field is shown as
    matched exactly when its key is in the record; and a key that is not
    among the matched ones is indeed ignored by generation: whatever value
    it carries, the draw calls are those of the record without it. *)
Theorem validateJson_keys
    (dataKeys : list string) (fields : list Field) :
  let v := validateJson (Parsed dataKeys) fields in
  (validationErrors v = [] <->
   forall k, k ∈ dataKeys -> exists f, f ∈ fields /\ key f = k) /\
  (length (validationErrors v) <= 1)%nat /\
  (forall f, f ∈ fields -> key f ∈ matchedFields v <-> key f ∈ dataKeys) /\
  matchedFields v `sublist_of` dataKeys /\
  (forall k, k ∈ dataKeys -> k ∉ matchedFields v ->
     forall Number_toString pages (data : gmap string Js.Value) value,
       overlay Number_toString pages (<[k := value]> data) fields
       = overlay Number_toString pages data fields).
Proof.
  intros v. unfold v. cbn [validateJson validationErrors matchedFields].
  split; [|split; [|split; [|split]]].
  - destruct (filter (fun k => k ∉ key <$> fields) dataKeys) as [|u us] eqn:E.
    + cbn. split; [|reflexivity]. intros _ k Hk.
      destruct (decide (k ∈ key <$> fields)) as [Hin|Hnot].
      * apply list_elem_of_fmap in Hin as (f & -> & Hf). exists f. split; auto.
      * assert (Hu : k ∈ filter (fun k => k ∉ key <$> fields) dataKeys)
          by (apply list_elem_of_filter; split; assumption).
        rewrite E in Hu. inversion Hu.
    + cbn. split; [discriminate|]. intros Hall. exfalso.
      assert (Hu : u ∈ filter (fun k => k ∉ key <$> fields) dataKeys)
        by (rewrite E; left).
      apply list_elem_of_filter in Hu as [Hnot Hu].
      destruct (Hall u Hu) as (f & Hf & Hk). apply Hnot.
      apply list_elem_of_fmap. exists f. split; [symmetry|]; assumption.
  - destruct (0 <? _)%nat; cbn; lia.
  - intros f Hf. rewrite list_elem_of_filter. split; [intros [_ H]; exact H|].
    intros H. split; [|exact H].
    apply list_elem_of_fmap. exists f. split; [reflexivity | exact Hf].
  - apply sublist_filter.
  - intros k Hk Hnot Number_toString pages data value.
    apply overlay_ext. intros f Hf. unfold Js.get.
    rewrite lookup_insert_ne; [reflexivity|].
    intros ->. apply Hnot. apply list_elem_of_filter. split; [|exact Hk].
    apply list_elem_of_fmap. exists f. split; [reflexivity | exact Hf].
Qed.

Lemma validateJson_keys_witness :
  overlay Js.integer_toString one_page
    (<["comment"%string := Js.Str "n/a"]> name_data) [name_field]
  = overlay Js.integer_toString one_page name_data [name_field].
Proof.
  destruct (validateJson_keys ["name"; "comment"]%string [name_field])
    as (_ & _ & _ & _ & H).
  apply (H "comment"%string).
  - right. left.
  - cbn. intros Hin. apply list_elem_of_singleton in Hin. discriminate Hin.
Defined.
